(** * USB-Monitor: device registry, telemetry monitors, authorization
      engine, security coordinator and protocol analyzer.

    A shallow embedding of the C++ sources (DeviceManager.cpp,
    PowerManager.cpp, BandwidthMonitor.cpp, ProtocolAnalyzer.cpp,
    DeviceAuthorizer.cpp, SecurityManager.cpp) followed by the properties
    of the specification that are checked against them.

    Conventions of the embedding
    - fixed-width integers are [Z]; the only arithmetic that can wrap
      (the [uint64_t] byte counters of the bandwidth monitor) has its
      wrap-around written out;
    - a [double] is the rational [Q] it denotes, and every operation on
      doubles rounds its exact result to binary64 ([Double.round]);
    - a [std::deque]/[std::vector] is a [list], front first;
    - a [std::map] whose iteration order is observed is a key-sorted
      association list, any other [std::map] is a [gmap];
    - a [UsbDevice*] that may be null is an [option UsbDevice]; the
      address of the object is the field [ptr];
    - clocks and the answer of the user to a prompt are oracles of the
      environment;
    - Qt signals are collected, in program order, in a list. *)

From Stdlib Require Import ZArith QArith Qabs Lia Lqa Ascii String.
From stdpp Require Import base gmap strings list.

Set Warnings "-abstract-large-number".

Local Open Scope string_scope.
Local Open Scope list_scope.
Local Open Scope Z_scope.

(** ** Bounded deques: [while (d.size() > cap) d.pop_front();] *)

Module Deque.

(** The eviction loop shared by every bounded history of the program. *)
Fixpoint trim {A : Type} (cap : nat) (d : list A) : list A :=
  match d with
  | [] => []
  | _ :: rest => if (cap <? length d)%nat then trim cap rest else d
  end.

(** [d.push_back(x)] followed by the eviction loop. *)
Definition push_bounded {A : Type} (cap : nat) (d : list A) (x : A) : list A :=
  trim cap (d ++ [x]).

End Deque.

(** ** Stream formatting used for keys and identifiers *)

Module Fmt.

Definition digit_char (d : Z) : ascii :=
  match String.get (Z.to_nat d) "0123456789ABCDEF" with
  | Some c => c
  | None => "?"%char
  end.

(** Digits of [n] in base [base], most significant first. *)
Fixpoint render (fuel : nat) (base n : Z) (acc : string) : string :=
  match fuel with
  | O => acc
  | S k =>
      let acc' := String (digit_char (n mod base)) acc in
      if n / base =? 0 then acc' else render k base (n / base) acc'
  end.

Fixpoint zeros (k : nat) : string :=
  match k with
  | O => ""
  | S k' => String "0"%char (zeros k')
  end.

(** [std::setw(w) << std::setfill('0')]: left padding up to width [w]. *)
Definition pad (w : nat) (s : string) : string :=
  zeros (w - String.length s) +:+ s.

(** [ss << std::hex << std::uppercase << std::setw(w) << std::setfill('0') << n] *)
Definition hex (w : nat) (n : Z) : string := pad w (render 64 16 n "").

(** [std::to_string(n)] for a non-negative [n]. *)
Definition to_string (n : Z) : string := render 64 10 n "".

End Fmt.

(** ** usb-monitor/Types.hpp *)

Record DeviceIdentifier := {
  vendorId : Z;        (* uint16_t *)
  productId : Z;       (* uint16_t *)
  busNumber : Z;       (* uint8_t *)
  deviceAddress : Z    (* uint8_t *)
}.

(** [enum class DeviceClass]; [UsbDevice::deviceClass] casts the descriptor
    byte, so every byte is a possible value. *)
Module DeviceClass.
Definition Unspecified : Z := 0x00.
Definition Audio : Z := 0x01.
Definition CDC : Z := 0x02.
Definition HID : Z := 0x03.
Definition Physical : Z := 0x05.
Definition Image : Z := 0x06.
Definition Printer : Z := 0x07.
Definition MassStorage : Z := 0x08.
Definition Hub : Z := 0x09.
Definition CDC_Data : Z := 0x0A.
Definition SmartCard : Z := 0x0B.
Definition ContentSecurity : Z := 0x0D.
Definition Video : Z := 0x0E.
Definition PersonalHealthcare : Z := 0x0F.
Definition AudioVideo : Z := 0x10.
Definition Billboard : Z := 0x11.
Definition TypeCBridge : Z := 0x12.
Definition Diagnostic : Z := 0xDC.
Definition Wireless : Z := 0xE0.
Definition Miscellaneous : Z := 0xEF.
Definition ApplicationSpecific : Z := 0xFE.
Definition VendorSpecific : Z := 0xFF.
End DeviceClass.

(** ** The native device-access library (libusb) as the code sees it *)

(** The constants of [libusb.h] the sources name.  They are not part of the
    repository, so the embedding takes them as a parameter; [libusb_1_0]
    below gives the values of libusb 1.0. *)
Record LibusbConstants := {
  LIBUSB_CLASS_PER_INTERFACE : Z;
  LIBUSB_CLASS_AUDIO : Z;
  LIBUSB_CLASS_COMM : Z;
  LIBUSB_CLASS_HID : Z;
  LIBUSB_CLASS_PRINTER : Z;
  LIBUSB_CLASS_MASS_STORAGE : Z;
  LIBUSB_CLASS_HUB : Z;
  LIBUSB_CLASS_DATA : Z;
  LIBUSB_CLASS_VIDEO : Z;
  LIBUSB_CLASS_VENDOR_SPEC : Z;
  LIBUSB_TRANSFER_TYPE_MASK : Z;
  LIBUSB_TRANSFER_TYPE_CONTROL : Z;
  LIBUSB_TRANSFER_TYPE_ISOCHRONOUS : Z;
  LIBUSB_TRANSFER_TYPE_BULK : Z;
  LIBUSB_TRANSFER_TYPE_INTERRUPT : Z;
  LIBUSB_ENDPOINT_IN : Z;
  LIBUSB_SPEED_FULL : Z
}.

Definition libusb_1_0 : LibusbConstants := {|
  LIBUSB_CLASS_PER_INTERFACE := 0x00;
  LIBUSB_CLASS_AUDIO := 0x01;
  LIBUSB_CLASS_COMM := 0x02;
  LIBUSB_CLASS_HID := 0x03;
  LIBUSB_CLASS_PRINTER := 0x07;
  LIBUSB_CLASS_MASS_STORAGE := 0x08;
  LIBUSB_CLASS_HUB := 0x09;
  LIBUSB_CLASS_DATA := 0x0A;
  LIBUSB_CLASS_VIDEO := 0x0E;
  LIBUSB_CLASS_VENDOR_SPEC := 0xFF;
  LIBUSB_TRANSFER_TYPE_MASK := 0x03;
  LIBUSB_TRANSFER_TYPE_CONTROL := 0;
  LIBUSB_TRANSFER_TYPE_ISOCHRONOUS := 1;
  LIBUSB_TRANSFER_TYPE_BULK := 2;
  LIBUSB_TRANSFER_TYPE_INTERRUPT := 3;
  LIBUSB_ENDPOINT_IN := 0x80;
  LIBUSB_SPEED_FULL := 2
|}.

Record libusb_endpoint_descriptor := {
  bEndpointAddress : Z;   (* uint8_t *)
  bmAttributes : Z;       (* uint8_t *)
  wMaxPacketSize : Z      (* uint16_t *)
}.

(** [bNumEndpoints] is the length of [endpoint]. *)
Record libusb_interface_descriptor := {
  bInterfaceClass : Z;    (* uint8_t *)
  endpoint : list libusb_endpoint_descriptor
}.

(** [num_altsetting] is the length of [altsetting]. *)
Record libusb_interface := {
  altsetting : list libusb_interface_descriptor
}.

(** [bNumInterfaces] is the length of [interface]. *)
Record libusb_config_descriptor := {
  interface : list libusb_interface;
  MaxPower : Z;           (* uint8_t, in units of 2 mA *)
  cfg_bmAttributes : Z    (* uint8_t *)
}.

Definition bNumInterfaces (c : libusb_config_descriptor) : Z :=
  Z.of_nat (length (interface c)).
Definition num_altsetting (i : libusb_interface) : Z :=
  Z.of_nat (length (altsetting i)).
Definition bNumEndpoints (s : libusb_interface_descriptor) : Z :=
  Z.of_nat (length (endpoint s)).

(** ** core/UsbDevice *)

Record UsbDevice := {
  ptr : N;                               (* address of the object *)
  identifier : DeviceIdentifier;
  bDeviceClass : Z;                      (* descriptor.bDeviceClass *)
  isOpened : bool;
  (** [libusb_get_device_speed(nativeDevice())] *)
  deviceSpeed : Z;
  (** [libusb_get_active_config_descriptor(nativeDevice(), &config)]:
      [None] when the call does not return 0. *)
  activeConfig : option libusb_config_descriptor
}.

Definition deviceClass (d : UsbDevice) : Z := bDeviceClass d.
Definition isOpen (d : UsbDevice) : bool := isOpened d.

(** ** The environment: clock readings and user answers *)

(** [clock k] is the [k]-th reading of [std::chrono::system_clock::now()]
    (in clock ticks), [answer k] tells whether the user pressed Yes in the
    [k]-th authorization dialog (a dialog closed by its timeout counts as
    not Yes). *)
Record World := {
  clock : nat -> Z;
  reads : nat;
  answer : nat -> bool;
  prompts : nat
}.

Definition now (w : World) : Z * World :=
  (clock w (reads w),
   {| clock := clock w; reads := S (reads w);
      answer := answer w; prompts := prompts w |}).

Definition askUser (w : World) : bool * World :=
  (answer w (prompts w),
   {| clock := clock w; reads := reads w;
      answer := answer w; prompts := S (prompts w) |}).

(** Ticks of [system_clock] per hour (its period is one nanosecond). *)
Definition system_clock_ticks_per_hour : Z := 3600 * 1000000000.

(** What a call that takes [stateMutex] can do: return, or lock the
    non-recursive [std::mutex] that its own thread already holds, which
    is undefined behaviour and in practice blocks for ever. *)
Inductive Outcome (A : Type) : Type :=
| Done (a : A)
| Relock.
Arguments Done {A} a.
Arguments Relock {A}.

(** ** security/DeviceAuthorizer *)

Module DeviceAuthorizer.

Inductive AuthorizationMethod :=
| Automatic | UserPrompt | SystemPolicy | Certificate | Custom.

Record AuthorizationPolicy := {
  autoAuthorizeKnownDevices : bool;
  requireUserConfirmation : bool;
  checkDeviceCertificates : bool;
  enforceSystemPolicies : bool;
  authorizationTimeout : Z      (* std::chrono::seconds *)
}.

(** The default member initializers of [struct AuthorizationPolicy]. *)
Definition AuthorizationPolicy_default : AuthorizationPolicy := {|
  autoAuthorizeKnownDevices := true;
  requireUserConfirmation := false;
  checkDeviceCertificates := false;
  enforceSystemPolicies := true;
  authorizationTimeout := 30
|}.

Record AuthorizationResult := {
  authorized : bool;
  reason : string;
  timestamp : Z;
  method : AuthorizationMethod
}.

Record DeviceAuthState := {
  isAuthorized : bool;
  lastAuthAttempt : Z;
  history : list AuthorizationResult;
  maxHistorySize : nat
}.

(** The state [deviceStates[device]] creates for an unknown device. *)
Definition DeviceAuthState_default : DeviceAuthState := {|
  isAuthorized := false;
  lastAuthAttempt := 0;
  history := [];
  maxHistorySize := 100
|}.

Record Private := {
  policy : AuthorizationPolicy;
  deviceStates : gmap N DeviceAuthState;
  trustedCertificates : list string;
  customMethods : gmap string (UsbDevice -> AuthorizationResult)
}.

(** [DeviceAuthorizer::DeviceAuthorizer] *)
Definition create : Private := {|
  policy := {|
    autoAuthorizeKnownDevices := true;
    requireUserConfirmation := true;
    checkDeviceCertificates := false;
    enforceSystemPolicies := true;
    authorizationTimeout := 30
  |};
  deviceStates := ∅;
  trustedCertificates := [];
  customMethods := ∅
|}.

(** The steps of [authorizeDevice] that consult something outside the
    per-device state, in the order they are evaluated. *)
Inductive Step :=
| SystemPolicies
| DeviceCertificate
| CustomMethod (key : string)
| UserConfirmation.

Definition pruneHistory (s : DeviceAuthState) : DeviceAuthState := {|
  isAuthorized := isAuthorized s;
  lastAuthAttempt := lastAuthAttempt s;
  history := Deque.trim (maxHistorySize s) (history s);
  maxHistorySize := maxHistorySize s
|}.

Definition isAuthorizationExpired (w : World) (s : DeviceAuthState)
  : bool * World :=
  if negb (isAuthorized s) then (true, w)
  else
    let '(t, w1) := now w in
    let elapsed :=
      Z.quot (t - lastAuthAttempt s) system_clock_ticks_per_hour in
    (24 <=? elapsed, w1).

Definition createResult (w : World) (a : bool) (why : string)
           (m : AuthorizationMethod) : AuthorizationResult * World :=
  let '(t, w1) := now w in
  ({| authorized := a; reason := why; timestamp := t; method := m |}, w1).

(** [state.history.push_back(result); d->pruneHistory(state);] *)
Definition pushResult (s : DeviceAuthState) (r : AuthorizationResult)
  : DeviceAuthState :=
  pruneHistory {|
    isAuthorized := isAuthorized s;
    lastAuthAttempt := lastAuthAttempt s;
    history := history s ++ [r];
    maxHistorySize := maxHistorySize s
  |}.

Definition setAuthorized (s : DeviceAuthState) (b : bool) : DeviceAuthState := {|
  isAuthorized := b;
  lastAuthAttempt := lastAuthAttempt s;
  history := history s;
  maxHistorySize := maxHistorySize s
|}.

(** Writing through the reference [auto& state = d->deviceStates[device]]. *)
Definition store (p : Private) (dev : UsbDevice) (s : DeviceAuthState)
  : Private := {|
  policy := policy p;
  deviceStates := <[ptr dev := s]> (deviceStates p);
  trustedCertificates := trustedCertificates p;
  customMethods := customMethods p
|}.

Definition stateOf (p : Private) (dev : UsbDevice) : DeviceAuthState :=
  default DeviceAuthState_default (deviceStates p !! ptr dev).

(** [DeviceAuthorizer::checkSystemPolicies], for a non-null device. *)
Definition checkSystemPolicies (L : LibusbConstants) (dev : UsbDevice) : bool :=
  if (LIBUSB_SPEED_FULL L <? deviceSpeed dev)
     && ((deviceClass dev =? DeviceClass.MassStorage)
         || (deviceClass dev =? DeviceClass.Video)
         || (deviceClass dev =? DeviceClass.AudioVideo))
  then false
  else if (deviceClass dev =? DeviceClass.VendorSpecific)
          || (deviceClass dev =? DeviceClass.Diagnostic)
          || (deviceClass dev =? DeviceClass.Wireless)
  then false
  else true.

(** [DeviceAuthorizer::validateDeviceCertificate].  It takes
    [stateMutex] itself; [held] tells whether the caller already owns
    that mutex. *)
Definition validateDeviceCertificate (held : bool) (p : Private)
           (device : option UsbDevice) : Outcome bool :=
  match device with
  | None => Done false
  | Some _ =>
      if held then Relock
      else
        match trustedCertificates p with
        | [] => Done (negb (checkDeviceCertificates (policy p)))
        | _ :: _ => Done true
        end
  end.

(** [DeviceAuthorizer::promptUserForAuthorization], for a non-null
    device: the dialog is the environment's [askUser]. *)
Definition promptUserForAuthorization (w : World)
  : AuthorizationResult * World :=
  let '(yes, w1) := askUser w in
  createResult w1 yes
    (if yes then "User authorized device" else "User denied authorization")
    UserPrompt.

Definition isKnownDevice (dev : UsbDevice) : bool :=
  (deviceClass dev =? DeviceClass.HID)
  || (deviceClass dev =? DeviceClass.Hub)
  || (deviceClass dev =? DeviceClass.Printer)
  || (deviceClass dev =? DeviceClass.MassStorage).

Definition deviceKey (dev : UsbDevice) : string :=
  Fmt.to_string (vendorId (identifier dev)) +:+ ":" +:+
  Fmt.to_string (productId (identifier dev)).

Definition Ret : Type := AuthorizationResult * Private * World * list Step.

(** The tail of [authorizeDevice]: user prompt, or "All checks passed". *)
Definition confirmStage (p : Private) (w : World) (dev : UsbDevice)
           (s : DeviceAuthState) (seen : list Step) : Outcome Ret :=
  if requireUserConfirmation (policy p) then
    let '(r, w1) := promptUserForAuthorization w in
    let s1 := pushResult s r in
    let s2 := if authorized r then setAuthorized s1 true else s1 in
    Done (r, store p dev s2, w1, seen ++ [UserConfirmation])
  else
    let '(r, w1) := createResult w true "All checks passed" Automatic in
    Done (r, store p dev (pushResult (setAuthorized s true) r), w1, seen).

(** Custom authorization methods, keyed by ["vendor:product"]. *)
Definition customStage (p : Private) (w : World) (dev : UsbDevice)
           (s : DeviceAuthState) (seen : list Step) : Outcome Ret :=
  match customMethods p !! deviceKey dev with
  | Some f =>
      let r := f dev in
      let seen1 := seen ++ [CustomMethod (deviceKey dev)] in
      if negb (authorized r)
      then Done (r, store p dev (pushResult s r), w, seen1)
      else confirmStage p w dev s seen1
  | None => confirmStage p w dev s seen
  end.

(** The certificate check; [authorizeDevice] still holds [stateMutex]. *)
Definition certificateStage (p : Private) (w : World) (dev : UsbDevice)
           (s : DeviceAuthState) (seen : list Step) : Outcome Ret :=
  if checkDeviceCertificates (policy p) then
    match validateDeviceCertificate true p (Some dev) with
    | Relock => Relock
    | Done ok =>
        let seen1 := seen ++ [DeviceCertificate] in
        if negb ok then
          let '(r, w1) :=
            createResult w false "Certificate validation failed" Certificate in
          Done (r, store p dev (pushResult s r), w1, seen1)
        else customStage p w dev s seen1
    end
  else customStage p w dev s seen.

Definition systemStage (L : LibusbConstants) (p : Private) (w : World)
           (dev : UsbDevice) (s : DeviceAuthState) : Outcome Ret :=
  if enforceSystemPolicies (policy p) then
    if negb (checkSystemPolicies L dev) then
      let '(r, w1) :=
        createResult w false "System policy violation" SystemPolicy in
      Done (r, store p dev (pushResult s r), w1, [SystemPolicies])
    else certificateStage p w dev s [SystemPolicies]
  else certificateStage p w dev s [].

(** [state.isAuthorized && !d->isAuthorizationExpired(state)] *)
Definition stillAuthorized (w : World) (s : DeviceAuthState) : bool * World :=
  if isAuthorized s then
    let '(e, w1) := isAuthorizationExpired w s in (negb e, w1)
  else (false, w).

(** [DeviceAuthorizer::authorizeDevice] *)
Definition authorizeDevice (L : LibusbConstants) (p : Private) (w : World)
           (device : option UsbDevice) : Outcome Ret :=
  match device with
  | None =>
      let '(r, w1) := createResult w false "Invalid device" Automatic in
      Done (r, p, w1, [])
  | Some dev =>
      let s := stateOf p dev in
      let '(cached, w1) := stillAuthorized w s in
      if cached then
        let '(r, w2) := createResult w1 true "Already authorized" Automatic in
        Done (r, store p dev s, w2, [])
      else
        let '(t, w2) := now w1 in
        let s1 := {| isAuthorized := false; lastAuthAttempt := t;
                     history := history s;
                     maxHistorySize := maxHistorySize s |} in
        if autoAuthorizeKnownDevices (policy p) && isKnownDevice dev then
          let '(r, w3) := createResult w2 true "Known device type" Automatic in
          Done (r, store p dev (pushResult (setAuthorized s1 true) r), w3, [])
        else systemStage L p w2 dev s1
  end.

(** [DeviceAuthorizer::setAuthorizationPolicy] (emits [policyChanged]). *)
Definition setAuthorizationPolicy (p : Private) (pol : AuthorizationPolicy)
  : Private := {|
  policy := pol;
  deviceStates := deviceStates p;
  trustedCertificates := trustedCertificates p;
  customMethods := customMethods p
|}.

(** [DeviceAuthorizer::getAuthorizationHistory] *)
Definition getAuthorizationHistory (p : Private) (dev : UsbDevice)
  : list AuthorizationResult :=
  match deviceStates p !! ptr dev with
  | Some s => history s
  | None => []
  end.

(** The signal [revokeAuthorization] emits. *)
Inductive Signal :=
| deviceAuthorizationRevoked (device : N).

(** [DeviceAuthorizer::revokeAuthorization] *)
Definition revokeAuthorization (p : Private) (w : World)
           (device : option UsbDevice) : Private * World * list Signal :=
  match device with
  | None => (p, w, [])
  | Some dev =>
      let s := stateOf p dev in
      if isAuthorized s then
        let '(t, w1) := now w in
        let s1 := {| isAuthorized := false; lastAuthAttempt := t;
                     history := history s;
                     maxHistorySize := maxHistorySize s |} in
        let '(r, w2) :=
          createResult w1 false "Authorization revoked" Automatic in
        (store p dev (pushResult s1 r), w2,
         [deviceAuthorizationRevoked (ptr dev)])
      else (store p dev s, w, [])
  end.

(** [DeviceAuthorizer::isAuthorized] *)
Definition isAuthorized_ (p : Private) (w : World)
           (device : option UsbDevice) : bool * World :=
  match device with
  | None => (false, w)
  | Some dev =>
      match deviceStates p !! ptr dev with
      | Some s => stillAuthorized w s
      | None => (false, w)
      end
  end.

(** [DeviceAuthorizer::getAuthorizationPolicy] *)
Definition getAuthorizationPolicy (p : Private) : AuthorizationPolicy :=
  policy p.

(** [DeviceAuthorizer::addTrustedCertificate]; [validateCertificate]
    stands for [Private::validateCertificate], which reads the file and
    asks OpenSSL. *)
Definition addTrustedCertificate (validateCertificate : string -> bool)
           (p : Private) (certPath : string) : bool * Private :=
  if negb (validateCertificate certPath) then (false, p)
  else (true,
        {| policy := policy p;
           deviceStates := deviceStates p;
           trustedCertificates := trustedCertificates p ++ [certPath];
           customMethods := customMethods p |}).

(** [DeviceAuthorizer::removeTrustedCertificate]: [std::remove] and
    [erase]. *)
Definition removeTrustedCertificate (p : Private) (certId : string)
  : Private := {|
  policy := policy p;
  deviceStates := deviceStates p;
  trustedCertificates :=
    List.filter (fun c => negb (String.eqb c certId)) (trustedCertificates p);
  customMethods := customMethods p
|}.

(** [DeviceAuthorizer::getTrustedCertificates] *)
Definition getTrustedCertificates (p : Private) : list string :=
  trustedCertificates p.

(** [DeviceAuthorizer::registerCustomAuthorizationMethod] *)
Definition registerCustomAuthorizationMethod (p : Private) (name : string)
           (method : UsbDevice -> AuthorizationResult) : Private := {|
  policy := policy p;
  deviceStates := deviceStates p;
  trustedCertificates := trustedCertificates p;
  customMethods := <[name := method]> (customMethods p)
|}.

(** [DeviceAuthorizer::clearAuthorizationHistory] *)
Definition clearAuthorizationHistory (p : Private) (dev : UsbDevice)
  : Private :=
  match deviceStates p !! ptr dev with
  | Some s =>
      store p dev {| isAuthorized := isAuthorized s;
                     lastAuthAttempt := lastAuthAttempt s;
                     history := [];
                     maxHistorySize := maxHistorySize s |}
  | None => p
  end.

End DeviceAuthorizer.

(** ** security/SecurityManager *)

Module SecurityManager.

Inductive SecurityLevel := Low | Medium | High | Custom.

Inductive SecurityEvent :=
| DeviceConnected
| DeviceDisconnected
| AuthorizationGranted
| AuthorizationDenied
| UnauthorizedAccess
| MaliciousActivityDetected
| ProtocolViolation
| PolicyViolation.

Module Rule.
Record SecurityRule := {
  vendorId : Z;
  productId : Z;
  isWhitelisted : bool;
  requireAuthorization : bool;
  securityLevel : SecurityLevel;
  allowedInterfaces : list string;
  expiryDate : Z       (* 0 is the default time_point: no expiry *)
}.

(** [SecurityRule{}] *)
Definition default : SecurityRule := {|
  vendorId := 0; productId := 0;
  isWhitelisted := false; requireAuthorization := false;
  securityLevel := Low; allowedInterfaces := []; expiryDate := 0
|}.
End Rule.
Abbreviation SecurityRule := Rule.SecurityRule.

Record SecurityEventInfo := {
  event : SecurityEvent;
  timestamp : Z;
  deviceId : string;
  description : string;
  securityLevel : SecurityLevel
}.

Record SecurityState := {
  rules : list SecurityRule;
  events : list SecurityEventInfo;
  authorizedDevices : gmap string bool;
  currentLevel : SecurityLevel;
  maxEventHistory : nat
}.

Record Private := {
  authorizer : DeviceAuthorizer.Private;
  state : SecurityState
}.

(** [SecurityManager::SecurityManager] *)
Definition create : Private := {|
  authorizer := DeviceAuthorizer.create;
  state := {| rules := []; events := []; authorizedDevices := ∅;
              currentLevel := Medium; maxEventHistory := 10000 |}
|}.

(** The Qt signals of the manager, and [policyChanged] of its authorizer. *)
Inductive Signal :=
| securityEventOccurred (e : SecurityEventInfo)
| securityLevelChanged (l : SecurityLevel)
| deviceBlocked (device : N) (why : string)
| configurationChanged
| policyChanged.

Definition SecurityLevel_eqb (a b : SecurityLevel) : bool :=
  match a, b with
  | Low, Low | Medium, Medium | High, High | Custom, Custom => true
  | _, _ => false
  end.

Definition withState (p : Private) (s : SecurityState) : Private :=
  {| authorizer := authorizer p; state := s |}.

Definition withRules (s : SecurityState) (rs : list SecurityRule)
  : SecurityState := {|
  rules := rs; events := events s;
  authorizedDevices := authorizedDevices s;
  currentLevel := currentLevel s; maxEventHistory := maxEventHistory s
|}.

Definition withEvents (s : SecurityState) (es : list SecurityEventInfo)
  : SecurityState := {|
  rules := rules s; events := es;
  authorizedDevices := authorizedDevices s;
  currentLevel := currentLevel s; maxEventHistory := maxEventHistory s
|}.

Definition withLevel (s : SecurityState) (l : SecurityLevel)
  : SecurityState := {|
  rules := rules s; events := events s;
  authorizedDevices := authorizedDevices s;
  currentLevel := l; maxEventHistory := maxEventHistory s
|}.

Definition withAuthorized (s : SecurityState) (m : gmap string bool)
  : SecurityState := {|
  rules := rules s; events := events s;
  authorizedDevices := m;
  currentLevel := currentLevel s; maxEventHistory := maxEventHistory s
|}.

(** [Private::matchesRule] *)
Definition matchesRule (rule : SecurityRule) (device : option UsbDevice)
  : bool :=
  match device with
  | None => false
  | Some d =>
      (Rule.vendorId rule =? vendorId (identifier d))
      && (Rule.productId rule =? productId (identifier d))
  end.

(** The policy [Private::enforceSecurityLevel] hands to the authorizer;
    [None] for [Custom], where it returns before doing so. *)
Definition presetPolicy (level : SecurityLevel)
  : option DeviceAuthorizer.AuthorizationPolicy :=
  let d := DeviceAuthorizer.AuthorizationPolicy_default in
  match level with
  | Low => Some {|
      DeviceAuthorizer.autoAuthorizeKnownDevices := true;
      DeviceAuthorizer.requireUserConfirmation := false;
      DeviceAuthorizer.checkDeviceCertificates := false;
      DeviceAuthorizer.enforceSystemPolicies := false;
      DeviceAuthorizer.authorizationTimeout :=
        DeviceAuthorizer.authorizationTimeout d |}
  | Medium => Some {|
      DeviceAuthorizer.autoAuthorizeKnownDevices := true;
      DeviceAuthorizer.requireUserConfirmation := true;
      DeviceAuthorizer.checkDeviceCertificates := false;
      DeviceAuthorizer.enforceSystemPolicies := true;
      DeviceAuthorizer.authorizationTimeout :=
        DeviceAuthorizer.authorizationTimeout d |}
  | High => Some {|
      DeviceAuthorizer.autoAuthorizeKnownDevices := false;
      DeviceAuthorizer.requireUserConfirmation := true;
      DeviceAuthorizer.checkDeviceCertificates := true;
      DeviceAuthorizer.enforceSystemPolicies := true;
      DeviceAuthorizer.authorizationTimeout := 15 |}
  | Custom => None
  end.

(** [Private::enforceSecurityLevel] *)
Definition enforceSecurityLevel (p : Private) (level : SecurityLevel)
  : Private * list Signal :=
  match presetPolicy level with
  | Some pol =>
      ({| authorizer :=
            DeviceAuthorizer.setAuthorizationPolicy (authorizer p) pol;
          state := state p |}, [policyChanged])
  | None => (p, [])
  end.

(** [SecurityManager::setSecurityLevel] *)
Definition setSecurityLevel (p : Private) (level : SecurityLevel)
  : Private * list Signal :=
  if SecurityLevel_eqb (currentLevel (state p)) level then (p, [])
  else
    let p1 := withState p (withLevel (state p) level) in
    let '(p2, sig) := enforceSecurityLevel p1 level in
    (p2, sig ++ [securityLevelChanged level]).

(** The predicate of the [std::remove_if] in [addSecurityRule]. *)
Definition sameDevice (rule existing : SecurityRule) : bool :=
  (Rule.vendorId existing =? Rule.vendorId rule)
  && (Rule.productId existing =? Rule.productId rule).

(** [SecurityManager::addSecurityRule] *)
Definition addSecurityRule (p : Private) (rule : SecurityRule)
  : Private * list Signal :=
  let kept := List.filter (fun e => negb (sameDevice rule e)) (rules (state p)) in
  (withState p (withRules (state p) (kept ++ [rule])), [configurationChanged]).

(** [Private::findMatchingRule] *)
Definition findMatchingRule (p : Private) (device : option UsbDevice)
  : SecurityRule :=
  match List.find (fun r => matchesRule r device) (rules (state p)) with
  | Some r => r
  | None => Rule.default
  end.

(** The identifier [validateDeviceInterfaces] builds for an interface
    class: ["0x"], then two upper-case hexadecimal digits. *)
Definition interfaceId (cls : Z) : string := "0x" +:+ Fmt.hex 2 cls.

(** [std::find(allowed.begin(), allowed.end(), id) != allowed.end()] *)
Definition isListed (allowed : list string) (id : string) : bool :=
  existsb (String.eqb id) allowed.

(** The inner loop of [validateDeviceInterfaces], over the alternate
    settings of one interface: the value of [valid] when it ends. *)
Fixpoint settingsAllowed (allowed : list string)
         (settings : list libusb_interface_descriptor) : bool :=
  match settings with
  | [] => true
  | s :: rest =>
      if isListed allowed (interfaceId (bInterfaceClass s))
      then settingsAllowed allowed rest
      else false
  end.

(** The outer loop, over the interfaces. *)
Fixpoint interfacesAllowed (allowed : list string)
         (ifaces : list libusb_interface) : bool :=
  match ifaces with
  | [] => true
  | i :: rest =>
      if settingsAllowed allowed (altsetting i)
      then interfacesAllowed allowed rest
      else false
  end.

(** [Private::validateDeviceInterfaces] *)
Definition validateDeviceInterfaces (device : UsbDevice) (rule : SecurityRule)
  : bool :=
  match Rule.allowedInterfaces rule with
  | [] => true
  | allowed =>
      match activeConfig device with
      | None => false
      | Some config => interfacesAllowed allowed (interface config)
      end
  end.

(** The [VVVV:PPPP] identifier of [logSecurityEvent]. *)
Definition eventDeviceId (d : UsbDevice) : string :=
  Fmt.hex 4 (vendorId (identifier d)) +:+ ":" +:+
  Fmt.hex 4 (productId (identifier d)).

(** [SecurityManager::logSecurityEvent] *)
Definition logSecurityEvent (p : Private) (w : World) (ev : SecurityEvent)
           (device : option UsbDevice) (text : string)
  : Private * World * list Signal :=
  match device with
  | None => (p, w, [])
  | Some d =>
      let '(t, w1) := now w in
      let info := {| event := ev; timestamp := t;
                     deviceId := eventDeviceId d;
                     description := text;
                     securityLevel := currentLevel (state p) |} in
      let es := Deque.push_bounded (maxEventHistory (state p))
                                   (events (state p)) info in
      (withState p (withEvents (state p) es), w1,
       [securityEventOccurred info])
  end.

(** The key of the [authorizedDevices] cache. *)
Definition deviceKey (d : UsbDevice) : string :=
  Fmt.to_string (vendorId (identifier d)) +:+ ":" +:+
  Fmt.to_string (productId (identifier d)).

(** [rule.expiryDate != time_point{} && now() > rule.expiryDate] *)
Definition ruleExpired (w : World) (rule : SecurityRule) : bool * World :=
  if Rule.expiryDate rule =? 0 then (false, w)
  else let '(t, w1) := now w in (Rule.expiryDate rule <? t, w1).

(** [SecurityManager::isDeviceAllowed] *)
Definition isDeviceAllowed (p : Private) (w : World)
           (device : option UsbDevice)
  : bool * Private * World * list Signal :=
  match device with
  | None => (false, p, w, [])
  | Some d =>
      match authorizedDevices (state p) !! deviceKey d with
      | Some cached => (cached, p, w, [])
      | None =>
          let rule := findMatchingRule p device in
          if negb (Rule.isWhitelisted rule) then
            let '(p1, w1, sig) :=
              logSecurityEvent p w UnauthorizedAccess device
                               "Device is not whitelisted" in
            (false, p1, w1, sig)
          else if negb (validateDeviceInterfaces d rule) then
            let '(p1, w1, sig) :=
              logSecurityEvent p w PolicyViolation device
                               "Device uses unauthorized interfaces" in
            (false, p1, w1, sig)
          else
            let '(expired, w1) := ruleExpired w rule in
            if expired then
              let '(p1, w2, sig) :=
                logSecurityEvent p w1 PolicyViolation device
                                 "Security rule has expired" in
              (false, p1, w2, sig)
            else (true, p, w1, [])
      end
  end.

(** The class codes the [switch] of [validateDeviceProtocol] lets pass. *)
Definition isCommonClass (L : LibusbConstants) (cls : Z) : bool :=
  (cls =? LIBUSB_CLASS_PER_INTERFACE L)
  || (cls =? LIBUSB_CLASS_AUDIO L)
  || (cls =? LIBUSB_CLASS_COMM L)
  || (cls =? LIBUSB_CLASS_HID L)
  || (cls =? LIBUSB_CLASS_PRINTER L)
  || (cls =? LIBUSB_CLASS_MASS_STORAGE L)
  || (cls =? LIBUSB_CLASS_HUB L)
  || (cls =? LIBUSB_CLASS_DATA L)
  || (cls =? LIBUSB_CLASS_VIDEO L).

(** [endpoint->bmAttributes & LIBUSB_TRANSFER_TYPE_MASK] *)
Definition transferType (L : LibusbConstants)
           (e : libusb_endpoint_descriptor) : Z :=
  Z.land (bmAttributes e) (LIBUSB_TRANSFER_TYPE_MASK L).

Definition isStandardTransferType (L : LibusbConstants) (t : Z) : bool :=
  (t =? LIBUSB_TRANSFER_TYPE_CONTROL L)
  || (t =? LIBUSB_TRANSFER_TYPE_ISOCHRONOUS L)
  || (t =? LIBUSB_TRANSFER_TYPE_BULK L)
  || (t =? LIBUSB_TRANSFER_TYPE_INTERRUPT L).

(** The variables the loops of [validateDeviceProtocol] carry: the flag
    [valid], the manager, the environment and the signals so far. *)
Definition Scan : Type := bool * Private * World * list Signal.

Definition scanValid (a : Scan) : bool := a.1.1.1.

(** [valid = false; logSecurityEvent(ProtocolViolation, device, text);] *)
Definition violation (d : UsbDevice) (text : string) (a : Scan) : Scan :=
  let '(_, p, w, sig) := a in
  let '(p1, w1, sig1) :=
    logSecurityEvent p w ProtocolViolation (Some d) text in
  (false, p1, w1, sig ++ sig1).

(** [for (k = 0; k < setting->bNumEndpoints && valid; k++)] *)
Fixpoint scanEndpoints (L : LibusbConstants) (d : UsbDevice)
         (eps : list libusb_endpoint_descriptor) (a : Scan) : Scan :=
  match eps with
  | [] => a
  | e :: rest =>
      if scanValid a then
        let a1 :=
          if isStandardTransferType L (transferType L e) then a
          else violation d "Invalid endpoint transfer type" a in
        if 16384 <? wMaxPacketSize e
        then violation d "Suspicious max packet size" a1   (* break *)
        else scanEndpoints L d rest a1
      else a
  end.

(** [for (j = 0; j < interface->num_altsetting && valid; j++)] *)
Fixpoint scanSettings (L : LibusbConstants) (d : UsbDevice)
         (settings : list libusb_interface_descriptor) (a : Scan) : Scan :=
  match settings with
  | [] => a
  | s :: rest =>
      if scanValid a then
        let a1 :=
          if isCommonClass L (bInterfaceClass s) then a
          else if bInterfaceClass s <? LIBUSB_CLASS_VENDOR_SPEC L
               then violation d "Unknown interface class detected" a
               else a in
        scanSettings L d rest (scanEndpoints L d (endpoint s) a1)
      else a
  end.

(** [for (i = 0; i < config->bNumInterfaces && valid; i++)] *)
Fixpoint scanInterfaces (L : LibusbConstants) (d : UsbDevice)
         (ifaces : list libusb_interface) (a : Scan) : Scan :=
  match ifaces with
  | [] => a
  | i :: rest =>
      if scanValid a then
        if 16 <? num_altsetting i
        then violation d "Suspicious number of alternate settings" a
        else scanInterfaces L d rest (scanSettings L d (altsetting i) a)
      else a
  end.

(** [SecurityManager::validateDeviceProtocol] *)
Definition validateDeviceProtocol (L : LibusbConstants) (p : Private)
           (w : World) (device : option UsbDevice)
  : bool * Private * World * list Signal :=
  match device with
  | None => (false, p, w, [])
  | Some d =>
      if negb (isOpen d) then (false, p, w, [])
      else
        match activeConfig d with
        | None => (false, p, w, [])
        | Some config =>
            let a0 : Scan := (true, p, w, []) in
            let a1 :=
              if 32 <? bNumInterfaces config
              then violation d "Suspicious number of interfaces" a0
              else a0 in
            scanInterfaces L d (interface config) a1
        end
  end.

(** [SecurityManager::authorizeDevice] *)
Definition authorizeDevice (L : LibusbConstants) (p : Private) (w : World)
           (device : option UsbDevice)
  : Outcome (bool * Private * World * list Signal) :=
  match device with
  | None => Done (false, p, w, [])
  | Some d =>
      let '(allowed, p1, w1, sig1) := isDeviceAllowed p w device in
      if negb allowed then
        Done (false, p1, w1,
              sig1 ++ [deviceBlocked (ptr d)
                         "Device is not allowed by security rules"])
      else
        let '(ok, p2, w2, sig2) := validateDeviceProtocol L p1 w1 device in
        if negb ok then
          Done (false, p2, w2,
                sig1 ++ sig2 ++ [deviceBlocked (ptr d)
                                   "Device failed protocol validation"])
        else
          match DeviceAuthorizer.authorizeDevice L (authorizer p2) w2 device with
          | Relock => Relock
          | Done (r, a3, w3, _) =>
              let p3 := {| authorizer := a3; state := state p2 |} in
              if negb (DeviceAuthorizer.authorized r) then
                Done (false, p3, w3,
                      sig1 ++ sig2 ++
                      [deviceBlocked (ptr d) (DeviceAuthorizer.reason r)])
              else
                Done (true,
                      withState p3
                        (withAuthorized (state p3)
                           (<[deviceKey d := true]>
                              (authorizedDevices (state p3)))),
                      w3, sig1 ++ sig2)
          end
  end.

(** [SecurityManager::revokeAuthorization].  The authorizer emits
    [deviceAuthorizationRevoked] from inside its call; the slot the
    constructor connected to it logs the event at once. *)
Definition revokeAuthorization (p : Private) (w : World)
           (device : option UsbDevice) : Private * World * list Signal :=
  match device with
  | None => (p, w, [])
  | Some d =>
      let '(a1, w1, revoked) :=
        DeviceAuthorizer.revokeAuthorization (authorizer p) w device in
      let p1 := {| authorizer := a1; state := state p |} in
      let '(p2, w2, sig) :=
        match revoked with
        | [] => (p1, w1, [])
        | _ :: _ =>
            logSecurityEvent p1 w1 AuthorizationDenied device
                             "Device authorization revoked"
        end in
      (withState p2
         (withAuthorized (state p2)
            (delete (deviceKey d) (authorizedDevices (state p2)))),
       w2, sig)
  end.

(** [SecurityManager::removeSecurityRule]: [configurationChanged] is
    emitted when [std::remove_if] found a rule to remove. *)
Definition removeSecurityRule (p : Private) (vid pid : Z)
  : Private * list Signal :=
  let found (r : SecurityRule) :=
    (Rule.vendorId r =? vid) && (Rule.productId r =? pid) in
  if existsb found (rules (state p)) then
    (withState p
       (withRules (state p)
          (List.filter (fun r => negb (found r)) (rules (state p)))),
     [configurationChanged])
  else (p, []).

(** [SecurityManager::getSecurityRules] *)
Definition getSecurityRules (p : Private) : list SecurityRule :=
  rules (state p).

(** [SecurityManager::clearSecurityRules] *)
Definition clearSecurityRules (p : Private) : Private * list Signal :=
  (withState p (withRules (state p) []), [configurationChanged]).

(** [SecurityManager::getSecurityLevel] *)
Definition getSecurityLevel (p : Private) : SecurityLevel :=
  currentLevel (state p).

(** [SecurityManager::getSecurityEvents] *)
Definition getSecurityEvents (p : Private) (start finish : Z)
  : list SecurityEventInfo :=
  List.filter (fun e => (start <=? timestamp e) && (timestamp e <=? finish))
              (events (state p)).

(** [SecurityManager::clearSecurityEvents] *)
Definition clearSecurityEvents (p : Private) : Private :=
  withState p (withEvents (state p) []).

End SecurityManager.

(** ** Double-precision arithmetic *)

Module Double.

(** [x * 2^k] for [k >= 0], [x] otherwise. *)
Definition scaled (x k : Z) : Z := x * 2 ^ Z.max k 0.

(** The exponent [k] with [2^52 <= a / b * 2^k < 2^53], for positive [a]
    and [b]. *)
Definition exponent (a b : Z) : Z :=
  let k0 := 52 - Z.log2 a + Z.log2 b in
  if scaled a k0 <? 2 ^ 52 * scaled b (- k0) then k0 + 1 else k0.

(** [n / d] rounded to the nearest integer, ties to even. *)
Definition round_half_even (n d : Z) : Z :=
  let q := n / d in
  let r := n mod d in
  if (d <? 2 * r) || ((d =? 2 * r) && Z.odd q) then q + 1 else q.

(** [a / b] rounded to 53 significant bits, for positive [a] and [b]. *)
Definition nearest (a b : Z) : Q :=
  let k := exponent a b in
  let m := round_half_even (scaled a k) (scaled b (- k)) in
  if 0 <=? k then Qmake m (Z.to_pos (2 ^ k)) else inject_Z (m * 2 ^ (- k)).

(** The binary64 number nearest to [q] (IEEE 754 round to nearest, ties
    to even).  An arithmetic operation on doubles yields [round] of its
    exact result, a conversion from an integer [round] of the integer.
    The exponent range is not modelled: the quantities of this program
    stay far inside it. *)
Definition round (q : Q) : Q :=
  match Qnum q with
  | 0 => 0%Q
  | Zpos _ => nearest (Qnum q) (Zpos (Qden q))
  | Zneg _ => Qopp (nearest (- Qnum q) (Zpos (Qden q)))
  end.

(** The literal [0.1]: the double nearest to 1/10, 0x1.999999999999Ap-4. *)
Definition tenth : Q := Qmake 3602879701896397 36028797018963968.

End Double.

(** ** [std::map<uint8_t, V>] with its key order *)

Module StdMap.

(** [m[k] = f(m[k])], where a missing [m[k]] is first created as [dflt];
    the entries stay sorted by key. *)
Fixpoint update {V : Type} (k : Z) (f : V -> V) (dflt : V)
         (m : list (Z * V)) : list (Z * V) :=
  match m with
  | [] => [(k, f dflt)]
  | (k', v) :: rest =>
      if k <? k' then (k, f dflt) :: m
      else if k =? k' then (k', f v) :: rest
      else (k', v) :: update k f dflt rest
  end.

(** The value read by [m[k]]. *)
Fixpoint at_ {V : Type} (dflt : V) (k : Z) (m : list (Z * V)) : V :=
  match m with
  | [] => dflt
  | (k', v) :: rest => if k =? k' then v else at_ dflt k rest
  end.

End StdMap.

(** ** analysis/ProtocolAnalyzer *)

Module ProtocolAnalyzer.

Record TransferRecord := {
  timestamp : Z;           (* steady_clock ticks *)
  endpointAddress : Z;     (* uint8_t *)
  data : list Z;           (* std::vector<uint8_t> *)
  isInput : bool;
  status : Z               (* int *)
}.

Record ProtocolPattern := {
  pattern_timestamp : Z;
  device : N;
  primaryEndpoint : Z;
  hasRegularTransferSizes : bool;
  problematicEndpoints : list Z
}.

Record Private := {
  transferHistory : gmap N (list TransferRecord);
  monitoringTimers : gset N;
  maxHistorySize : nat;
  (** whether [q_ptr] is non-null *)
  q_ptr : bool
}.

(** [ProtocolAnalyzer::ProtocolAnalyzer]: the constructor leaves the
    value-initialized [q_ptr] null. *)
Definition create : Private := {|
  transferHistory := ∅;
  monitoringTimers := ∅;
  maxHistorySize := 1000;
  q_ptr := false
|}.

Definition historyOf (p : Private) (dev : N) : list TransferRecord :=
  default [] (transferHistory p !! dev).

(** [Private::recordTransfer]; [t] is the reading of the steady clock. *)
Definition recordTransfer (p : Private) (t : Z) (dev : N)
           (endpointAddress : Z) (data : list Z) (isInput : bool)
           (status : Z) : Private :=
  let record := {| timestamp := t; endpointAddress := endpointAddress;
                   data := data; isInput := isInput; status := status |} in
  {| transferHistory :=
       <[dev := Deque.push_bounded (maxHistorySize p) (historyOf p dev) record]>
         (transferHistory p);
     monitoringTimers := monitoringTimers p;
     maxHistorySize := maxHistorySize p;
     q_ptr := q_ptr p |}.


(** [ProtocolAnalyzer::getRecentTransfers], as the records it copies. *)
Definition getRecentTransfers (p : Private) (dev : N) (maxCount : nat)
  : list TransferRecord :=
  match transferHistory p !! dev with
  | None => []
  | Some h => drop (length h - Nat.min maxCount (length h)) h
  end.

(** The three statistics maps filled by the first loop of
    [analyzeTransferPatterns]. *)
Definition endpointFrequency (h : list TransferRecord) : list (Z * Z) :=
  fold_left (fun m r => StdMap.update (endpointAddress r) Z.succ 0 m) h [].

Definition sizeSums (h : list TransferRecord) : list (Z * Q) :=
  fold_left
    (fun m r =>
       StdMap.update (endpointAddress r)
         (fun s => Double.round
                     (Qplus s (Double.round
                                 (inject_Z (Z.of_nat (length (data r)))))))
         0%Q m)
    h [].

Definition errorCount (h : list TransferRecord) : list (Z * Z) :=
  fold_left
    (fun m r =>
       if status r =? 0 then m
       else StdMap.update (endpointAddress r) Z.succ 0 m)
    h [].

(** [pair.second /= endpointFrequency[pair.first]] *)
Definition averageTransferSize (h : list TransferRecord) : list (Z * Q) :=
  map (fun kv : Z * Q =>
         (kv.1,
          Double.round
            (Qdiv kv.2
                  (Double.round
                     (inject_Z (StdMap.at_ 0 kv.1 (endpointFrequency h)))))))
      (sizeSums h).

(** [std::max_element] with [a.second < b.second]: the first entry that
    no later entry exceeds. *)
Fixpoint maxFrequency (best : Z * Z) (m : list (Z * Z)) : Z * Z :=
  match m with
  | [] => best
  | kv :: rest => maxFrequency (if best.2 <? kv.2 then kv else best) rest
  end.

(** The loop that decides [hasRegularTransferSizes]. *)
Fixpoint regularSizes (firstSize : Q) (m : list (Z * Q)) : bool :=
  match m with
  | [] => true
  | kv :: rest =>
      if Qeq_bool firstSize 0 then regularSizes kv.2 rest
      else if negb (Qle_bool (Qabs (Double.round (Qminus kv.2 firstSize))) 1)
           then false
           else regularSizes firstSize rest
  end.

(** [errorRate = static_cast<double>(errors) / endpointFrequency[endpoint]];
    the two counts are below 2^53 and convert to [double] unchanged. *)
Definition errorRate (freq : list (Z * Z)) (kv : Z * Z) : Q :=
  Double.round (Qdiv (inject_Z kv.2) (inject_Z (StdMap.at_ 0 kv.1 freq))).

(** [if (errorRate > 0.1) problematicEndpoints.push_back(endpoint)] *)
Definition problematic (freq errors : list (Z * Z)) : list Z :=
  map fst
    (List.filter (fun kv => negb (Qle_bool (errorRate freq kv) Double.tenth))
                 errors).

(** [Private::analyzeTransferPatterns]: the pattern it computes ([None]
    when it returns early), and whether the pattern is emitted. *)
Definition analyzeTransferPatterns (p : Private) (t : Z) (dev : N)
  : option ProtocolPattern * bool :=
  match transferHistory p !! dev with
  | None | Some [] => (None, false)
  | Some h =>
      let freq := endpointFrequency h in
      let primary :=
        match freq with
        | [] => 0
        | kv :: rest => (maxFrequency kv rest).1
        end in
      (Some {| pattern_timestamp := t;
               device := dev;
               primaryEndpoint := primary;
               hasRegularTransferSizes :=
                 regularSizes 0%Q (averageTransferSize h);
               problematicEndpoints := problematic freq (errorCount h) |},
       q_ptr p)
  end.

(** The endpoints of a configuration in the order the three nested loops
    of [analyzeProtocol] visit them. *)
Definition allEndpoints (config : libusb_config_descriptor)
  : list libusb_endpoint_descriptor :=
  concat (map (fun i => concat (map endpoint (altsetting i)))
              (interface config)).

(** The body of the innermost loop of [analyzeProtocol]: a transfer of
    [wMaxPacketSize] zero bytes with status 0 is recorded.  [c] is the
    steady clock, read once by [recordTransfer]. *)
Definition simulateTransfer (L : LibusbConstants) (dev : N)
           (acc : Private * World) (e : libusb_endpoint_descriptor)
  : Private * World :=
  let '(t, c1) := now acc.2 in
  (recordTransfer acc.1 t dev (bEndpointAddress e)
     (repeat 0 (Z.to_nat (wMaxPacketSize e)))
     (negb (Z.land (bEndpointAddress e) (LIBUSB_ENDPOINT_IN L) =? 0))
     0,
   c1).

(** [Private::analyzeProtocol]: the analyzer, the steady clock, and what
    [analyzeTransferPatterns] computed; that function reads the clock only
    when it does not return early. *)
Definition analyzeProtocol (L : LibusbConstants) (p : Private) (c : World)
           (device : option UsbDevice)
  : Private * World * (option ProtocolPattern * bool) :=
  match device with
  | None => (p, c, (None, false))
  | Some d =>
      if negb (isOpen d) then (p, c, (None, false))
      else
        let '(p1, c1) :=
          match activeConfig d with
          | Some config =>
              fold_left (simulateTransfer L (ptr d)) (allEndpoints config) (p, c)
          | None => (p, c)
          end in
        let '(t, c2) := now c1 in
        let found := analyzeTransferPatterns p1 t (ptr d) in
        (p1, match found.1 with Some _ => c2 | None => c1 end, found)
  end.

(** [ProtocolAnalyzer::startMonitoring] *)
Definition startMonitoring (L : LibusbConstants) (p : Private) (c : World)
           (device : option UsbDevice)
  : Private * World * (option ProtocolPattern * bool) :=
  match device with
  | None => (p, c, (None, false))
  | Some d =>
      if bool_decide (ptr d ∈ monitoringTimers p) then (p, c, (None, false))
      else
        analyzeProtocol L
          {| transferHistory := <[ptr d := []]> (transferHistory p);
             monitoringTimers := {[ptr d]} ∪ monitoringTimers p;
             maxHistorySize := maxHistorySize p;
             q_ptr := q_ptr p |}
          c device
  end.

(** [ProtocolAnalyzer::stopMonitoring] *)
Definition stopMonitoring (p : Private) (device : option UsbDevice)
  : Private :=
  match device with
  | None => p
  | Some d =>
      {| transferHistory := delete (ptr d) (transferHistory p);
         monitoringTimers := monitoringTimers p ∖ {[ptr d]};
         maxHistorySize := maxHistorySize p;
         q_ptr := q_ptr p |}
  end.

(** [ProtocolAnalyzer::clearHistory] *)
Definition clearHistory (p : Private) (dev : N) : Private :=
  match transferHistory p !! dev with
  | Some _ =>
      {| transferHistory := <[dev := []]> (transferHistory p);
         monitoringTimers := monitoringTimers p;
         maxHistorySize := maxHistorySize p;
         q_ptr := q_ptr p |}
  | None => p
  end.

(** The timeout of the timer created for [d]: a stopped and deleted
    timer does not fire. *)
Definition timeout (L : LibusbConstants) (p : Private) (c : World)
           (d : UsbDevice)
  : Private * World * (option ProtocolPattern * bool) :=
  if bool_decide (ptr d ∈ monitoringTimers p)
  then analyzeProtocol L p c (Some d)
  else (p, c, (None, false)).

End ProtocolAnalyzer.

(** ** core/BandwidthMonitor *)

Module BandwidthMonitor.

(** A sample: reading of the steady clock (ticks) and cumulative bytes. *)
Definition Sample : Type := Z * Z.

Record TransferStats := {
  readHistory : list Sample;
  writeHistory : list Sample;
  totalBytesRead : Z;       (* uint64_t *)
  totalBytesWritten : Z     (* uint64_t *)
}.

Definition TransferStats_default : TransferStats := {|
  readHistory := []; writeHistory := [];
  totalBytesRead := 0; totalBytesWritten := 0
|}.

Record BandwidthStats := {
  bytesRead : Z;
  bytesWritten : Z;
  readSpeed : Q;
  writeSpeed : Q;
  speedClass : Z
}.

(** Constants.hpp *)
Definition BANDWIDTH_WINDOW : Z := 5000.

(** Ticks of [steady_clock] per millisecond (its period is one
    nanosecond). *)
Definition steady_clock_ticks_per_ms : Z := 1000000.

(** [duration_cast<milliseconds>(later - earlier).count()] *)
Definition elapsed_ms (earlier later : Z) : Z :=
  Z.quot (later - earlier) steady_clock_ticks_per_ms.

Definition uint64 (x : Z) : Z := x mod 2 ^ 64.

(** The pruning loop of [updateTransferStats]. *)
Fixpoint prune (t : Z) (history : list Sample) : list Sample :=
  match history with
  | [] => []
  | s :: rest =>
      if BANDWIDTH_WINDOW <? elapsed_ms s.1 t then prune t rest else history
  end.

(** [Private::updateTransferStats]: the new history and total. *)
Definition updateTransferStats (history : list Sample) (totalBytes : Z)
           (maxPacketSize : Z) (t : Z) : list Sample * Z :=
  let total := uint64 (totalBytes + maxPacketSize) in
  (prune t (history ++ [(t, total)]), total).

(** [Private::calculateSpeed]: the count of milliseconds converts to
    [double] unchanged, the byte span is rounded by its conversion. *)
Definition calculateSpeed (history : list Sample) : Q :=
  match history with
  | front :: _ :: _ =>
      let back := List.last history front in
      let timeSpan :=
        Double.round (Qdiv (inject_Z (elapsed_ms front.1 back.1)) 1000) in
      let byteSpan := uint64 (back.2 - front.2) in
      if negb (Qle_bool timeSpan 0)
      then Double.round (Qdiv (Double.round (inject_Z byteSpan)) timeSpan)
      else 0%Q
  | _ => 0%Q
  end.

Record Private := {
  deviceStats : gmap N TransferStats;
  monitoringTimers : gset N;
  (** whether [q_ptr] is non-null *)
  q_ptr : bool
}.

(** [BandwidthMonitor::BandwidthMonitor]: the constructor leaves the
    value-initialized [q_ptr] null. *)
Definition create : Private :=
  {| deviceStats := ∅; monitoringTimers := ∅; q_ptr := false |}.

Inductive Signal :=
| statsUpdated (device : N) (stats : BandwidthStats).

(** The endpoints of a configuration in the order the three nested loops
    visit them. *)
Definition allEndpoints (config : libusb_config_descriptor)
  : list libusb_endpoint_descriptor :=
  concat (map (fun i => concat (map endpoint (altsetting i)))
              (interface config)).

(** The body of the innermost loop of [updateDeviceBandwidth]. *)
Definition countEndpoint (L : LibusbConstants) (t : Z) (stats : TransferStats)
           (e : libusb_endpoint_descriptor) : TransferStats :=
  if Z.land (bEndpointAddress e) (LIBUSB_ENDPOINT_IN L) =? 0 then
    let '(h, total) :=
      updateTransferStats (writeHistory stats) (totalBytesWritten stats)
                          (wMaxPacketSize e) t in
    {| readHistory := readHistory stats; writeHistory := h;
       totalBytesRead := totalBytesRead stats; totalBytesWritten := total |}
  else
    let '(h, total) :=
      updateTransferStats (readHistory stats) (totalBytesRead stats)
                          (wMaxPacketSize e) t in
    {| readHistory := h; writeHistory := writeHistory stats;
       totalBytesRead := total; totalBytesWritten := totalBytesWritten stats |}.

(** [Private::updateDeviceBandwidth]; [t] is the reading of the steady
    clock.  The result carries the snapshot [bwStats] the call computes
    ([None] when it returns at once) and the signals it emits. *)
Definition updateDeviceBandwidth (L : LibusbConstants) (p : Private)
           (device : option UsbDevice) (t : Z)
  : Private * option BandwidthStats * list Signal :=
  match device with
  | None => (p, None, [])
  | Some d =>
      if negb (isOpen d) then (p, None, [])
      else
        let stats0 := default TransferStats_default (deviceStats p !! ptr d) in
        let stats :=
          match activeConfig d with
          | Some config => fold_left (countEndpoint L t) (allEndpoints config) stats0
          | None => stats0
          end in
        let bwStats := {| bytesRead := totalBytesRead stats;
                          bytesWritten := totalBytesWritten stats;
                          readSpeed := calculateSpeed (readHistory stats);
                          writeSpeed := calculateSpeed (writeHistory stats);
                          speedClass := deviceSpeed d |} in
        ({| deviceStats := <[ptr d := stats]> (deviceStats p);
            monitoringTimers := monitoringTimers p;
            q_ptr := q_ptr p |},
         Some bwStats,
         if q_ptr p then [statsUpdated (ptr d) bwStats] else [])
  end.

(** [BandwidthMonitor::startMonitoring] *)
Definition startMonitoring (p : Private) (device : option UsbDevice)
  : Private :=
  match device with
  | None => p
  | Some d =>
      if bool_decide (ptr d ∈ monitoringTimers p) then p
      else {| deviceStats := <[ptr d := TransferStats_default]> (deviceStats p);
              monitoringTimers := {[ptr d]} ∪ monitoringTimers p;
              q_ptr := q_ptr p |}
  end.

(** [BandwidthMonitor::stopMonitoring] *)
Definition stopMonitoring (p : Private) (device : option UsbDevice)
  : Private :=
  match device with
  | None => p
  | Some d =>
      {| deviceStats := delete (ptr d) (deviceStats p);
         monitoringTimers := monitoringTimers p ∖ {[ptr d]};
         q_ptr := q_ptr p |}
  end.

(** The timeout of the timer created for [d]: a stopped and deleted
    timer does not fire. *)
Definition timeout (L : LibusbConstants) (p : Private) (d : UsbDevice)
           (t : Z) : Private * option BandwidthStats * list Signal :=
  if bool_decide (ptr d ∈ monitoringTimers p)
  then updateDeviceBandwidth L p (Some d) t
  else (p, None, []).

(** [BandwidthStats{}] *)
Definition BandwidthStats_default : BandwidthStats := {|
  bytesRead := 0; bytesWritten := 0;
  readSpeed := 0; writeSpeed := 0; speedClass := 0
|}.

(** [BandwidthMonitor::getDeviceStats], for a device object (its
    [nativeDevice()] is never null). *)
Definition getDeviceStats (p : Private) (d : UsbDevice) : BandwidthStats :=
  match deviceStats p !! ptr d with
  | Some transferStats =>
      {| bytesRead := totalBytesRead transferStats;
         bytesWritten := totalBytesWritten transferStats;
         readSpeed := calculateSpeed (readHistory transferStats);
         writeSpeed := calculateSpeed (writeHistory transferStats);
         speedClass := deviceSpeed d |}
  | None => BandwidthStats_default
  end.

(** [BandwidthMonitor::resetStats] *)
Definition resetStats (p : Private) (dev : N) : Private :=
  match deviceStats p !! dev with
  | Some _ =>
      {| deviceStats := <[dev := TransferStats_default]> (deviceStats p);
         monitoringTimers := monitoringTimers p;
         q_ptr := q_ptr p |}
  | None => p
  end.

End BandwidthMonitor.

(** ** core/PowerManager *)

Module PowerManager.

Record PowerStats := {
  currentUsage : Q;     (* mA *)
  voltage : Q;          (* V *)
  powerUsage : Q;       (* mW *)
  selfPowered : bool;
  maxPower : Z          (* uint16_t, mA *)
}.

(** [PowerStats{}] *)
Definition PowerStats_default : PowerStats := {|
  currentUsage := 0; voltage := 0; powerUsage := 0;
  selfPowered := false; maxPower := 0
|}.

Record Private := {
  deviceStats : gmap N PowerStats;
  monitoringTimers : gset N
}.

Definition create : Private :=
  {| deviceStats := ∅; monitoringTimers := ∅ |}.

Inductive Signal :=
| powerStatsUpdated (device : N) (stats : PowerStats).

(** [Private::updateDevicePower] *)
Definition updateDevicePower (p : Private) (device : option UsbDevice)
  : Private * list Signal :=
  match device with
  | None => (p, [])
  | Some d =>
      if negb (isOpen d) then (p, [])
      else
        let stats :=
          match activeConfig d with
          | Some config =>
              {| currentUsage := 0; voltage := 0; powerUsage := 0;
                 selfPowered :=
                   negb (Z.land (cfg_bmAttributes config) 0x40 =? 0);
                 maxPower := (MaxPower config * 2) mod 2 ^ 16 |}
          | None => PowerStats_default
          end in
        ({| deviceStats := <[ptr d := stats]> (deviceStats p);
            monitoringTimers := monitoringTimers p |},
         [powerStatsUpdated (ptr d) stats])
  end.

(** [PowerManager::startMonitoring] *)
Definition startMonitoring (p : Private) (device : option UsbDevice)
  : Private * list Signal :=
  match device with
  | None => (p, [])
  | Some d =>
      if bool_decide (ptr d ∈ monitoringTimers p) then (p, [])
      else
        updateDevicePower
          {| deviceStats := deviceStats p;
             monitoringTimers := {[ptr d]} ∪ monitoringTimers p |}
          device
  end.

(** [PowerManager::stopMonitoring] *)
Definition stopMonitoring (p : Private) (device : option UsbDevice)
  : Private :=
  match device with
  | None => p
  | Some d =>
      {| deviceStats := delete (ptr d) (deviceStats p);
         monitoringTimers := monitoringTimers p ∖ {[ptr d]} |}
  end.

(** The timeout of the timer created for [d]. *)
Definition timeout (p : Private) (d : UsbDevice) : Private * list Signal :=
  if bool_decide (ptr d ∈ monitoringTimers p)
  then updateDevicePower p (Some d)
  else (p, []).

End PowerManager.

(** ** core/DeviceManager *)

Module DeviceManager.

(** What libusb reports for a [libusb_device*]. *)
Record libusb_device_descriptor := {
  idVendor : Z;
  idProduct : Z;
  desc_bDeviceClass : Z
}.

Record libusb_device := {
  bus_number : Z;
  device_address : Z;
  (** [libusb_get_device_descriptor]: [None] when it fails *)
  descriptor : option libusb_device_descriptor;
  speed : Z;
  active_config : option libusb_config_descriptor
}.

Record Private := {
  devices : gmap string UsbDevice;
  powerMgr : PowerManager.Private;
  bwMonitor : BandwidthMonitor.Private;
  (** the address [std::make_shared<UsbDevice>] returns next *)
  nextObject : N
}.

Definition create : Private := {|
  devices := ∅;
  powerMgr := PowerManager.create;
  bwMonitor := BandwidthMonitor.create;
  nextObject := 1
|}.

(** What a call does, in program order. *)
Inductive Effect :=
| RegistryInsert (id : string)
| RegistryErase (id : string)
| PowerMonitorStart (device : N)
| PowerMonitorStop (device : N)
| BandwidthMonitorStart (device : N)
| BandwidthMonitorStop (device : N)
| PowerSignal (s : PowerManager.Signal)
| deviceAdded (device : N)
| deviceRemoved (device : N).

(** [DeviceManager::getDeviceIdentifier] *)
Definition getDeviceIdentifier (dev : libusb_device) : string :=
  let vid := match descriptor dev with Some d => idVendor d | None => 0 end in
  let pid := match descriptor dev with Some d => idProduct d | None => 0 end in
  Fmt.hex 4 vid +:+ ":" +:+ Fmt.hex 4 pid +:+ ":" +:+
  Fmt.hex 2 (bus_number dev) +:+ ":" +:+ Fmt.hex 2 (device_address dev).

(** [UsbDevice::UsbDevice], for the object allocated at [addr]. *)
Definition newUsbDevice (addr : N) (dev : libusb_device) : UsbDevice :=
  match descriptor dev with
  | Some d =>
      {| ptr := addr;
         identifier := {| vendorId := idVendor d; productId := idProduct d;
                          busNumber := bus_number dev;
                          deviceAddress := device_address dev |};
         bDeviceClass := desc_bDeviceClass d;
         isOpened := false;
         deviceSpeed := speed dev;
         activeConfig := active_config dev |}
  | None =>
      {| ptr := addr;
         identifier := {| vendorId := 0; productId := 0;
                          busNumber := 0; deviceAddress := 0 |};
         bDeviceClass := 0;
         isOpened := false;
         deviceSpeed := speed dev;
         activeConfig := active_config dev |}
  end.

(** [DeviceManager::handleDeviceArrival] *)
Definition handleDeviceArrival (m : Private) (dev : libusb_device)
  : Private * list Effect :=
  let id := getDeviceIdentifier dev in
  match devices m !! id with
  | Some _ => (m, [])
  | None =>
      let usbDevice := newUsbDevice (nextObject m) dev in
      let '(pm, sig) := PowerManager.startMonitoring (powerMgr m) (Some usbDevice) in
      let bw := BandwidthMonitor.startMonitoring (bwMonitor m) (Some usbDevice) in
      ({| devices := <[id := usbDevice]> (devices m);
          powerMgr := pm; bwMonitor := bw;
          nextObject := N.succ (nextObject m) |},
       [PowerMonitorStart (ptr usbDevice)] ++ map PowerSignal sig ++
       [BandwidthMonitorStart (ptr usbDevice);
        RegistryInsert id;
        deviceAdded (ptr usbDevice)])
  end.

(** [DeviceManager::handleDeviceRemoval] *)
Definition handleDeviceRemoval (m : Private) (dev : libusb_device)
  : Private * list Effect :=
  let id := getDeviceIdentifier dev in
  match devices m !! id with
  | Some removedDevice =>
      (* under devicesMutex: removedDevice = it->second; devices.erase(it) *)
      let registry := delete id (devices m) in
      (* after the lock is released *)
      let pm := PowerManager.stopMonitoring (powerMgr m) (Some removedDevice) in
      let bw := BandwidthMonitor.stopMonitoring (bwMonitor m) (Some removedDevice) in
      ({| devices := registry; powerMgr := pm; bwMonitor := bw;
          nextObject := nextObject m |},
       [RegistryErase id;
        PowerMonitorStop (ptr removedDevice);
        BandwidthMonitorStop (ptr removedDevice);
        deviceRemoved (ptr removedDevice)])
  | None => (m, [])
  end.

(** A timer of one of the two monitors fires. *)
Inductive Tick :=
| PowerTick (d : UsbDevice)
| BandwidthTick (d : UsbDevice) (t : Z).

(** A telemetry sample: a power snapshot published for a device, or a
    bandwidth snapshot computed for it. *)
Inductive SampleOf :=
| PowerSample (s : PowerManager.Signal)
| BandwidthSample (device : N) (stats : BandwidthMonitor.BandwidthStats).


(** One firing: the new state and the samples taken. *)
Definition tick (L : LibusbConstants) (m : Private) (k : Tick)
  : Private * list SampleOf :=
  match k with
  | PowerTick d =>
      let '(pm, sig) := PowerManager.timeout (powerMgr m) d in
      ({| devices := devices m; powerMgr := pm; bwMonitor := bwMonitor m;
          nextObject := nextObject m |}, map PowerSample sig)
  | BandwidthTick d t =>
      let '(bw, snapshot, _) := BandwidthMonitor.timeout L (bwMonitor m) d t in
      ({| devices := devices m; powerMgr := powerMgr m; bwMonitor := bw;
          nextObject := nextObject m |},
       match snapshot with
       | Some stats => [BandwidthSample (ptr d) stats]
       | None => []
       end)
  end.


(** The two events the hotplug callback is registered for. *)
Inductive libusb_hotplug_event :=
| LIBUSB_HOTPLUG_EVENT_DEVICE_ARRIVED
| LIBUSB_HOTPLUG_EVENT_DEVICE_LEFT.

(** [Private::hotplugCallback] *)
Definition hotplugCallback (m : Private) (dev : libusb_device)
           (event : libusb_hotplug_event) : Private * list Effect :=
  match event with
  | LIBUSB_HOTPLUG_EVENT_DEVICE_ARRIVED => handleDeviceArrival m dev
  | LIBUSB_HOTPLUG_EVENT_DEVICE_LEFT => handleDeviceRemoval m dev
  end.

(** [std::map<std::string, bool>]: [m[id] = present], the entries kept in
    the order of their keys. *)
Fixpoint assign (id : string) (present : bool) (m : list (string * bool))
  : list (string * bool) :=
  match m with
  | [] => [(id, present)]
  | (id', v) :: rest =>
      if String.ltb id id' then (id, present) :: m
      else if String.eqb id id' then (id', present) :: rest
      else (id', v) :: assign id present rest
  end.

(** [handleDeviceArrival] and [handleDeviceRemoval] begin by locking
    [devicesMutex]; [held] tells whether the caller already owns it. *)
Definition arrivalUnder (held : bool) (m : Private) (dev : libusb_device)
  : Outcome (Private * list Effect) :=
  if held then Relock else Done (handleDeviceArrival m dev).

Definition removalUnder (held : bool) (m : Private) (id : string)
  : Outcome (Private * list Effect) :=
  if held then Relock
  else
    (* [it->second->nativeDevice()] has the identifier [id] of its entry *)
    match devices m !! id with
    | Some removedDevice =>
        Done ({| devices := delete id (devices m);
                 powerMgr := PowerManager.stopMonitoring (powerMgr m)
                                                         (Some removedDevice);
                 bwMonitor := BandwidthMonitor.stopMonitoring (bwMonitor m)
                                                              (Some removedDevice);
                 nextObject := nextObject m |},
              [RegistryErase id;
               PowerMonitorStop (ptr removedDevice);
               BandwidthMonitorStop (ptr removedDevice);
               deviceRemoved (ptr removedDevice)])
    | None => Done (m, [])
    end.

(** The second loop of [pollDevices]: every iteration holds
    [devicesMutex] to its end. *)
Fixpoint pollArrivals (m : Private) (listed : list libusb_device)
         (currentDevices : list (string * bool)) (trace : list Effect)
  : Outcome (Private * list (string * bool) * list Effect) :=
  match listed with
  | [] => Done (m, currentDevices, trace)
  | device :: rest =>
      let id := getDeviceIdentifier device in
      match devices m !! id with
      | None =>
          match arrivalUnder true m device with
          | Relock => Relock
          | Done (m1, eff) =>
              pollArrivals m1 rest (assign id true currentDevices)
                           (trace ++ eff)
          end
      | Some _ => pollArrivals m rest (assign id true currentDevices) trace
      end
  end.

(** The third loop: the identifiers that were not listed. *)
Fixpoint pollRemovals (m : Private) (currentDevices : list (string * bool))
         (trace : list Effect) : Outcome (Private * list Effect) :=
  match currentDevices with
  | [] => Done (m, trace)
  | (id, present) :: rest =>
      if present then pollRemovals m rest trace
      else
        match devices m !! id with
        | Some _ =>
            match removalUnder true m id with
            | Relock => Relock
            | Done (m1, eff) => pollRemovals m1 rest (trace ++ eff)
            end
        | None => pollRemovals m rest trace
        end
  end.

(** [DeviceManager::pollDevices]; [listed] is what
    [libusb_get_device_list] returns, [None] when its count is negative.
    The result carries the messages of the [error] signal. *)
Definition pollDevices (m : Private) (listed : option (list libusb_device))
  : Outcome (Private * list Effect * list string) :=
  match listed with
  | None => Done (m, [], ["Failed to get device list"])
  | Some all =>
      let currentDevices :=
        fold_left (fun acc id => assign id false acc)
                  (map fst (map_to_list (devices m))) [] in
      match pollArrivals m all currentDevices [] with
      | Relock => Relock
      | Done (m1, current, trace) =>
          match pollRemovals m1 current trace with
          | Relock => Relock
          | Done (m2, trace2) => Done (m2, trace2, [])
          end
      end
  end.

End DeviceManager.

(** * Vocabulary of the properties *)

(** The rules of a rule set that are for the pair [(vid, pid)], in order. *)
Definition rulesFor (vid pid : Z) (rs : list SecurityManager.SecurityRule)
  : list SecurityManager.SecurityRule :=
  List.filter
    (fun r => (SecurityManager.Rule.vendorId r =? vid)
              && (SecurityManager.Rule.productId r =? pid))
    rs.

(** The rule set after [addSecurityRule]. *)
Definition rulesAfterAdd (p : SecurityManager.Private)
           (r : SecurityManager.SecurityRule)
  : list SecurityManager.SecurityRule :=
  SecurityManager.rules
    (SecurityManager.state (SecurityManager.addSecurityRule p r).1).

(** The policy the specification lists for the level High. *)
Definition highPolicy : DeviceAuthorizer.AuthorizationPolicy := {|
  DeviceAuthorizer.autoAuthorizeKnownDevices := false;
  DeviceAuthorizer.requireUserConfirmation := true;
  DeviceAuthorizer.checkDeviceCertificates := true;
  DeviceAuthorizer.enforceSystemPolicies := true;
  DeviceAuthorizer.authorizationTimeout := 15
|}.

(** Whether [authorizeDevice] answers from the cached authorization of
    the device: it is authorized and the 24 hours have not passed. *)
Definition servedFromCache (p : DeviceAuthorizer.Private) (w : World)
           (dev : UsbDevice) : bool :=
  (DeviceAuthorizer.stillAuthorized w (DeviceAuthorizer.stateOf p dev)).1.

(** Every per-device authorization state has the history cap 100 it is
    created with. *)
Definition capped (p : DeviceAuthorizer.Private) : Prop :=
  forall k s, DeviceAuthorizer.deviceStates p !! k = Some s ->
              DeviceAuthorizer.maxHistorySize s = 100%nat.

(** C2 as the specification states it: the result a call returns is the
    newest entry of the history of the device when the call returns. *)
Definition recordsResult (L : LibusbConstants) (p : DeviceAuthorizer.Private)
           (w : World) (dev : UsbDevice) : Prop :=
  forall r p' w' seen,
    DeviceAuthorizer.authorizeDevice L p w (Some dev) = Done (r, p', w', seen) ->
    last (DeviceAuthorizer.getAuthorizationHistory p' dev) = Some r.

(** An environment whose [k]-th clock reading is [k] ticks and whose user
    declines every dialog. *)
Definition world0 : World :=
  {| clock := fun k => Z.of_nat k; reads := 0;
     answer := fun _ => false; prompts := 0 |}.

Definition deviceOfClass (addr : N) (cls : Z) : UsbDevice := {|
  ptr := addr;
  identifier := {| vendorId := 0x1234; productId := 0x5678;
                   busNumber := 1; deviceAddress := 4 |};
  bDeviceClass := cls;
  isOpened := true;
  deviceSpeed := 2;
  activeConfig := None
|}.

(** A HID keyboard and a vendor-specific gadget. *)
Definition keyboard : UsbDevice := deviceOfClass 1 DeviceClass.HID.
Definition gadget : UsbDevice := deviceOfClass 2 DeviceClass.VendorSpecific.

(** The authorizer after one [authorizeDevice] for the keyboard, and the
    environment at that point. *)
Definition afterFirstCall : DeviceAuthorizer.Private * World :=
  match DeviceAuthorizer.authorizeDevice libusb_1_0 DeviceAuthorizer.create
          world0 (Some keyboard) with
  | Done (_, p, w, _) => (p, w)
  | Relock => (DeviceAuthorizer.create, world0)
  end.

(** The device declares an interface (alternate setting) of class [cls]. *)
Definition declaresClass (d : UsbDevice) (cls : Z) : Prop :=
  exists config i setting,
    activeConfig d = Some config /\ i ∈ interface config
    /\ setting ∈ altsetting i /\ bInterfaceClass setting = cls.


(** A device with one interface of class [cls] that has one endpoint. *)
Definition deviceWithInterface (cls : Z) (e : libusb_endpoint_descriptor)
  : UsbDevice := {|
  ptr := 3;
  identifier := {| vendorId := 0x1234; productId := 0x5678;
                   busNumber := 1; deviceAddress := 5 |};
  bDeviceClass := 0;
  isOpened := true;
  deviceSpeed := 2;
  activeConfig := Some {|
    interface := [ {| altsetting := [ {| bInterfaceClass := cls;
                                         endpoint := [e] |} ] |} ];
    MaxPower := 50; cfg_bmAttributes := 0x80 |}
|}.

Definition bulkIn : libusb_endpoint_descriptor :=
  {| bEndpointAddress := 0x81; bmAttributes := 0x02; wMaxPacketSize := 512 |}.













(** The exact time, in seconds, between two readings of the steady clock. *)
Definition elapsed_seconds (earlier later : Z) : Q :=
  inject_Z (later - earlier)
  / inject_Z (BandwidthMonitor.steady_clock_ticks_per_ms * 1000).

(** [v] is [a] divided by [b]. *)
Definition isQuotient (v a b : Q) : Prop := ~ b == 0 /\ v * b == a.

(** C7 as the specification states it: with two samples or more the speed
    is the growth of the cumulative bytes divided by the time between the
    first and the last sample, and it is 0 otherwise. *)
Definition speedLaw (history : list BandwidthMonitor.Sample) (v : Q) : Prop :=
  match history with
  | front :: _ :: _ =>
      let back := List.last history front in
      isQuotient v (inject_Z (back.2 - front.2))
                 (elapsed_seconds front.1 back.1)
  | _ => v == 0
  end.

(** The samples are in the order of their readings, none before [lo]. *)
Fixpoint timeOrderedFrom (lo : Z) (history : list BandwidthMonitor.Sample)
  : Prop :=
  match history with
  | [] => True
  | s :: rest => lo <= s.1 /\ timeOrderedFrom s.1 rest
  end.

(** [updateTransferStats] called once per reading of [ticks], for an
    endpoint of [size] bytes. *)
Definition feed (size : Z) (ticks : list Z)
           (start : list BandwidthMonitor.Sample * Z)
  : list BandwidthMonitor.Sample * Z :=
  fold_left (fun acc t => BandwidthMonitor.updateTransferStats acc.1 acc.2 size t)
            ticks start.

(** Readings every 100 ms, from 0 to 1000 ms. *)
Definition every100ms : list Z :=
  map (fun k => Z.of_nat k * 100 * BandwidthMonitor.steady_clock_ticks_per_ms)
      (seq 0 11).

(** A device with two bulk IN endpoints of 512 bytes, the monitor after
    [startMonitoring] and the first firing of its timer at the reading 0,
    and the read window the monitor then holds for the device. *)
Definition twoInEndpoints : UsbDevice := {|
  ptr := 9;
  identifier := {| vendorId := 0x0781; productId := 0x5567;
                   busNumber := 2; deviceAddress := 3 |};
  bDeviceClass := 0;
  isOpened := true;
  deviceSpeed := 3;
  activeConfig := Some {|
    interface := [ {| altsetting := [ {| bInterfaceClass := 0x08;
        endpoint := [ {| bEndpointAddress := 0x81; bmAttributes := 0x02;
                         wMaxPacketSize := 512 |};
                      {| bEndpointAddress := 0x82; bmAttributes := 0x02;
                         wMaxPacketSize := 512 |} ] |} ] |} ];
    MaxPower := 50; cfg_bmAttributes := 0x80 |}
|}.

Definition firstTickWindow : list BandwidthMonitor.Sample :=
  let started :=
    BandwidthMonitor.startMonitoring BandwidthMonitor.create
                                     (Some twoInEndpoints) in
  let fired :=
    (BandwidthMonitor.timeout libusb_1_0 started twoInEndpoints 0).1.1 in
  match BandwidthMonitor.deviceStats fired !! ptr twoInEndpoints with
  | Some stats => BandwidthMonitor.readHistory stats
  | None => []
  end.

(** Two samples taken 100.5 ms apart by an endpoint of 4096 bytes. *)
Definition jitterWindow : list BandwidthMonitor.Sample :=
  (feed 4096 [0; 100500000] ([], 0)).1.








(** A rule for the pair 1234:5678. *)
Definition rule_1234_5678 (white : bool) (ifaces : list string)
  : SecurityManager.SecurityRule := {|
  SecurityManager.Rule.vendorId := 0x1234;
  SecurityManager.Rule.productId := 0x5678;
  SecurityManager.Rule.isWhitelisted := white;
  SecurityManager.Rule.requireAuthorization := false;
  SecurityManager.Rule.securityLevel := SecurityManager.Medium;
  SecurityManager.Rule.allowedInterfaces := ifaces;
  SecurityManager.Rule.expiryDate := 0
|}.

(** The manager that holds only the rule for 1234:5678 with the given
    allow-list. *)
Definition managerWithRule (ifaces : list string) : SecurityManager.Private :=
  (SecurityManager.addSecurityRule SecurityManager.create
     (rule_1234_5678 true ifaces)).1.

(** What every path of [authorizeDevice] past the cache test does to the
    state [s] of the device: the result is pushed on its bounded history. *)
Definition pushed (p : DeviceAuthorizer.Private) (dev : UsbDevice)
           (s : DeviceAuthorizer.DeviceAuthState)
           (r : DeviceAuthorizer.AuthorizationResult)
           (p' : DeviceAuthorizer.Private) : Prop :=
  exists s', p' = DeviceAuthorizer.store p dev s'
             /\ DeviceAuthorizer.maxHistorySize s'
                = DeviceAuthorizer.maxHistorySize s
             /\ DeviceAuthorizer.history s'
                = Deque.push_bounded (DeviceAuthorizer.maxHistorySize s)
                                     (DeviceAuthorizer.history s) r.

(** What the loops of [validateDeviceProtocol] keep true of the variables
    they carry, where [cap] is the capacity of the event log: either no
    violation was found so far, or [valid] is false and the newest event
    is a ProtocolViolation. *)
Definition flagged (cap : nat) (a : SecurityManager.Scan) : Prop :=
  let '(valid, p, _, sig) := a in
  valid = false
  /\ exists info,
       last sig = Some (SecurityManager.securityEventOccurred info)
       /\ SecurityManager.event info = SecurityManager.ProtocolViolation
       /\ ((0 < cap)%nat ->
           last (SecurityManager.events (SecurityManager.state p)) = Some info).

Definition scanning (cap : nat) (a : SecurityManager.Scan) : Prop :=
  SecurityManager.maxEventHistory (SecurityManager.state a.1.1.2) = cap
  /\ (SecurityManager.scanValid a = true \/ flagged cap a).

(** Neither monitor has a timer for the object [p]. *)
Definition unmonitored (p : N) (m : DeviceManager.Private) : Prop :=
  (p ∉ PowerManager.monitoringTimers (DeviceManager.powerMgr m))
  /\ (p ∉ BandwidthMonitor.monitoringTimers (DeviceManager.bwMonitor m)).

(** The unit roundoff of binary64, 2^-53. *)
Definition unit_roundoff : Q := 1 # 9007199254740992.

(** Two samples taken 100 ms apart by an endpoint of 4096 bytes. *)
Definition steadyWindow : list BandwidthMonitor.Sample :=
  (feed 4096 [0; 100000000] ([], 0)).1.

(** What a call of [authorizeDevice] that runs the checks leaves behind,
    from the state [s] of the device and the environment [w] it started
    the checks with: the verdict is stored, the time of the attempt is
    kept, and an approval is one of the authorizer's own. *)
Definition settled (p : DeviceAuthorizer.Private) (w : World)
           (dev : UsbDevice) (s : DeviceAuthorizer.DeviceAuthState)
           (r : DeviceAuthorizer.AuthorizationResult)
           (p' : DeviceAuthorizer.Private) (w' : World) : Prop :=
  exists s',
    p' = DeviceAuthorizer.store p dev s'
    /\ DeviceAuthorizer.isAuthorized s' = DeviceAuthorizer.authorized r
    /\ DeviceAuthorizer.lastAuthAttempt s' = DeviceAuthorizer.lastAuthAttempt s
    /\ (reads w <= reads w')%nat
    /\ clock w' = clock w
    /\ (DeviceAuthorizer.authorized r = true ->
        DeviceAuthorizer.reason r
        ∈ ["Known device type"; "User authorized device"; "All checks passed"]).

(** The calls of the public interface of the authorizer that change it. *)
Inductive AuthorizerCall :=
| CallAuthorize (device : option UsbDevice)
| CallRevoke (device : option UsbDevice)
| CallClearHistory (dev : UsbDevice)
| CallSetPolicy (pol : DeviceAuthorizer.AuthorizationPolicy)
| CallRegister (name : string)
               (method : UsbDevice -> DeviceAuthorizer.AuthorizationResult)
| CallAddCertificate (path : string)
| CallRemoveCertificate (id : string).

Definition authorizerCall (L : LibusbConstants)
           (validateCertificate : string -> bool)
           (st : DeviceAuthorizer.Private * World) (c : AuthorizerCall)
  : Outcome (DeviceAuthorizer.Private * World) :=
  match c with
  | CallAuthorize device =>
      match DeviceAuthorizer.authorizeDevice L st.1 st.2 device with
      | Done (_, p, w, _) => Done (p, w)
      | Relock => Relock
      end
  | CallRevoke device =>
      Done (DeviceAuthorizer.revokeAuthorization st.1 st.2 device).1
  | CallClearHistory dev =>
      Done (DeviceAuthorizer.clearAuthorizationHistory st.1 dev, st.2)
  | CallSetPolicy pol =>
      Done (DeviceAuthorizer.setAuthorizationPolicy st.1 pol, st.2)
  | CallRegister name method =>
      Done (DeviceAuthorizer.registerCustomAuthorizationMethod st.1 name method,
            st.2)
  | CallAddCertificate path =>
      Done ((DeviceAuthorizer.addTrustedCertificate validateCertificate
               st.1 path).2, st.2)
  | CallRemoveCertificate id =>
      Done (DeviceAuthorizer.removeTrustedCertificate st.1 id, st.2)
  end.

(** A sequence of calls, each on the state the previous one left. *)
Fixpoint authorizerCalls (L : LibusbConstants)
         (validateCertificate : string -> bool)
         (st : DeviceAuthorizer.Private * World) (cs : list AuthorizerCall)
  : Outcome (DeviceAuthorizer.Private * World) :=
  match cs with
  | [] => Done st
  | c :: rest =>
      match authorizerCall L validateCertificate st c with
      | Done st1 => authorizerCalls L validateCertificate st1 rest
      | Relock => Relock
      end
  end.

(** Every stored history is within the cap of 100 it was created with. *)
Definition historiesBounded (p : DeviceAuthorizer.Private) : Prop :=
  forall k s, DeviceAuthorizer.deviceStates p !! k = Some s ->
              DeviceAuthorizer.maxHistorySize s = 100%nat
              /\ (length (DeviceAuthorizer.history s) <= 100)%nat.

(** A user who approves every dialog. *)
Definition worldYes : World :=
  {| clock := fun k => Z.of_nat k; reads := 0;
     answer := fun _ => true; prompts := 0 |}.

(** The descriptor tree [validateDeviceProtocol] lets pass, level by
    level. *)
Definition endpointOk (L : LibusbConstants) (e : libusb_endpoint_descriptor)
  : bool :=
  SecurityManager.isStandardTransferType L (SecurityManager.transferType L e)
  && (wMaxPacketSize e <=? 16384).

Definition settingOk (L : LibusbConstants) (s : libusb_interface_descriptor)
  : bool :=
  (SecurityManager.isCommonClass L (bInterfaceClass s)
   || (LIBUSB_CLASS_VENDOR_SPEC L <=? bInterfaceClass s))
  && forallb (endpointOk L) (endpoint s).

Definition interfaceOk (L : LibusbConstants) (i : libusb_interface) : bool :=
  (num_altsetting i <=? 16) && forallb (settingOk L) (altsetting i).

Definition wellFormed (L : LibusbConstants) (d : UsbDevice) : bool :=
  isOpen d
  && match activeConfig d with
     | Some config =>
         (bNumInterfaces config <=? 32)
         && forallb (interfaceOk L) (interface config)
     | None => false
     end.

(** The manager [p'] differs from [p] at most in its event log, and the
    log is within its capacity if it was. *)
Definition onlyLogs (p p' : SecurityManager.Private) : Prop :=
  SecurityManager.authorizer p' = SecurityManager.authorizer p
  /\ SecurityManager.rules (SecurityManager.state p')
     = SecurityManager.rules (SecurityManager.state p)
  /\ SecurityManager.authorizedDevices (SecurityManager.state p')
     = SecurityManager.authorizedDevices (SecurityManager.state p)
  /\ SecurityManager.currentLevel (SecurityManager.state p')
     = SecurityManager.currentLevel (SecurityManager.state p)
  /\ SecurityManager.maxEventHistory (SecurityManager.state p')
     = SecurityManager.maxEventHistory (SecurityManager.state p)
  /\ ((length (SecurityManager.events (SecurityManager.state p))
       <= SecurityManager.maxEventHistory (SecurityManager.state p))%nat ->
      (length (SecurityManager.events (SecurityManager.state p'))
       <= SecurityManager.maxEventHistory (SecurityManager.state p))%nat).

(** The calls of the public interface of the security manager that can
    change it. *)
Inductive ManagerCall :=
| IsDeviceAllowed (device : option UsbDevice)
| AuthorizeDevice (device : option UsbDevice)
| RevokeAuthorization (device : option UsbDevice)
| AddSecurityRule (rule : SecurityManager.SecurityRule)
| RemoveSecurityRule (vid pid : Z)
| ClearSecurityRules
| SetSecurityLevel (level : SecurityManager.SecurityLevel)
| ClearSecurityEvents.

Definition managerCall (L : LibusbConstants)
           (st : SecurityManager.Private * World) (c : ManagerCall)
  : Outcome (SecurityManager.Private * World) :=
  match c with
  | IsDeviceAllowed device =>
      let '(_, p, w, _) := SecurityManager.isDeviceAllowed st.1 st.2 device in
      Done (p, w)
  | AuthorizeDevice device =>
      match SecurityManager.authorizeDevice L st.1 st.2 device with
      | Done (_, p, w, _) => Done (p, w)
      | Relock => Relock
      end
  | RevokeAuthorization device =>
      Done (SecurityManager.revokeAuthorization st.1 st.2 device).1
  | AddSecurityRule rule =>
      Done ((SecurityManager.addSecurityRule st.1 rule).1, st.2)
  | RemoveSecurityRule vid pid =>
      Done ((SecurityManager.removeSecurityRule st.1 vid pid).1, st.2)
  | ClearSecurityRules =>
      Done ((SecurityManager.clearSecurityRules st.1).1, st.2)
  | SetSecurityLevel level =>
      Done ((SecurityManager.setSecurityLevel st.1 level).1, st.2)
  | ClearSecurityEvents =>
      Done (SecurityManager.clearSecurityEvents st.1, st.2)
  end.

(** A sequence of calls, each on the state the previous one left. *)
Fixpoint managerCalls (L : LibusbConstants)
         (st : SecurityManager.Private * World) (cs : list ManagerCall)
  : Outcome (SecurityManager.Private * World) :=
  match cs with
  | [] => Done st
  | c :: rest =>
      match managerCall L st c with
      | Done st1 => managerCalls L st1 rest
      | Relock => Relock
      end
  end.

(** The event log has the capacity 10000 and is within it, and the cache
    of authorized devices holds no refusal. *)
Definition managerInvariant (p : SecurityManager.Private) : Prop :=
  SecurityManager.maxEventHistory (SecurityManager.state p) = 10000%nat
  /\ (length (SecurityManager.events (SecurityManager.state p)) <= 10000)%nat
  /\ forall k b,
       SecurityManager.authorizedDevices (SecurityManager.state p) !! k
       = Some b -> b = true.

(** The call revokes the authorization cached under [key]. *)
Definition revokes (key : string) (c : ManagerCall) : bool :=
  match c with
  | RevokeAuthorization (Some d) =>
      String.eqb (SecurityManager.deviceKey d) key
  | _ => false
  end.

(** The level Low installed on a manager that holds only a rule that
    whitelists 1234:5678 without restriction. *)
Definition lowManager : SecurityManager.Private :=
  (SecurityManager.setSecurityLevel (managerWithRule []) SecurityManager.Low).1.

(** The last level of a sequence that is not Custom, [dflt] if none. *)
Fixpoint lastPreset (dflt : SecurityManager.SecurityLevel)
         (levels : list SecurityManager.SecurityLevel)
  : SecurityManager.SecurityLevel :=
  match levels with
  | [] => dflt
  | SecurityManager.Custom :: rest => lastPreset dflt rest
  | l :: rest => lastPreset l rest
  end.

(** [setSecurityLevel] called with each level of a sequence in turn. *)
Definition setLevels (p : SecurityManager.Private)
           (levels : list SecurityManager.SecurityLevel)
  : SecurityManager.Private :=
  fold_left (fun q l => (SecurityManager.setSecurityLevel q l).1) levels p.

(** The manager with the single unrestricted whitelisting rule for
    1234:5678, switched to the level High. *)
Definition highManager : SecurityManager.Private :=
  (SecurityManager.setSecurityLevel (managerWithRule []) SecurityManager.High).1.

(** * Properties *)

(** ** Bounded deques *)

Section DequeFacts.
Context {A : Type}.
Implicit Types (d : list A) (cap : nat).

Lemma trim_drop cap d : Deque.trim cap d = drop (length d - cap) d.
Proof.
  induction d as [|x d IH]; [done|].
  cbn [Deque.trim]. destruct (Nat.ltb_spec cap (length (x :: d))) as [Hlt|Hge].
  - rewrite IH. cbn [length] in *.
    replace (S (length d) - cap)%nat with (S (length d - cap)) by lia. done.
  - cbn [length] in *.
    replace (S (length d) - cap)%nat with 0%nat by lia. done.
Qed.

Lemma trim_length cap d : length (Deque.trim cap d) = Nat.min cap (length d).
Proof. rewrite trim_drop, length_drop. lia. Qed.

Lemma trim_bounded cap d : (length (Deque.trim cap d) <= cap)%nat.
Proof. rewrite trim_length. lia. Qed.




Lemma push_bounded_last cap d x :
  (0 < cap)%nat -> last (Deque.push_bounded cap d x) = Some x.
Proof.
  intros Hcap. unfold Deque.push_bounded. rewrite trim_drop, length_app.
  cbn [length].
  destruct (Nat.le_gt_cases (length d + 1) cap) as [Hle|Hgt].
  - replace (length d + 1 - cap)%nat with 0%nat by lia. cbn [drop].
    apply last_snoc.
  - rewrite drop_app_le by lia. apply last_snoc.
Qed.

Lemma push_bounded_length cap d x :
  (length (Deque.push_bounded cap d x) <= cap)%nat.
Proof. apply trim_bounded. Qed.


End DequeFacts.


(** ** Double-precision arithmetic *)

Section DoubleFacts.
Import Double.

Lemma scaled_up x k : 0 <= k -> scaled x k = x * 2 ^ k.
Proof. intros H. unfold scaled. by rewrite Z.max_l. Qed.

Lemma scaled_down x k : 0 <= k -> scaled x (- k) = x.
Proof. intros H. unfold scaled. rewrite Z.max_r by lia. cbn. lia. Qed.

Lemma scaled_neg x k : k <= 0 -> scaled x k = x.
Proof. intros H. unfold scaled. rewrite Z.max_r by lia. cbn. lia. Qed.

Lemma scaled_pos x k : 0 < x -> 0 < scaled x k.
Proof.
  intros H. unfold scaled.
  assert (0 < 2 ^ Z.max k 0) by (apply Z.pow_pos_nonneg; lia). nia.
Qed.

(** The exponent brings the quotient into [2^52, 2^53). *)
Lemma exponent_spec a b :
  0 < a -> 0 < b ->
  2 ^ 52 * scaled b (- exponent a b) <= scaled a (exponent a b)
  < 2 ^ 53 * scaled b (- exponent a b).
Proof.
  intros Ha Hb. unfold exponent.
  pose proof (Z.log2_spec a Ha) as [Hla1 Hla2].
  pose proof (Z.log2_spec b Hb) as [Hlb1 Hlb2].
  pose proof (Z.log2_nonneg a) as Hla0.
  pose proof (Z.log2_nonneg b) as Hlb0.
  set (la := Z.log2 a) in *. set (lb := Z.log2 b) in *.
  set (k0 := 52 - la + lb).
  assert (2 ^ Z.succ la = 2 * 2 ^ la) as E2 by (apply Z.pow_succ_r; lia).
  assert (2 ^ Z.succ lb = 2 * 2 ^ lb) as E3 by (apply Z.pow_succ_r; lia).
  rewrite E2 in Hla2. rewrite E3 in Hlb2.
  assert (0 < 2 ^ la) as HA by (apply Z.pow_pos_nonneg; lia).
  assert (0 < 2 ^ lb) as HB by (apply Z.pow_pos_nonneg; lia).
  destruct (Z_le_gt_dec 0 k0) as [Hk0|Hk0].
  - (* the quotient is below 2^53: the operands are scaled up *)
    assert (2 ^ la * 2 ^ k0 = 2 ^ 52 * 2 ^ lb) as E1.
    { rewrite <- !Z.pow_add_r by lia. f_equal. subst k0. lia. }
    assert (2 ^ (k0 + 1) = 2 * 2 ^ k0) as E4.
    { rewrite Z.pow_add_r by lia. lia. }
    assert (0 < 2 ^ k0) as Hp by (apply Z.pow_pos_nonneg; lia).
    rewrite (scaled_up a k0), (scaled_down b k0) by lia.
    set (P := 2 ^ k0) in *. set (A := 2 ^ la) in *. set (B := 2 ^ lb) in *.
    assert (A * P <= a * P) as H1 by nia.
    assert (a * P < 2 * A * P) as H2 by nia.
    destruct (Z.ltb_spec (a * P) (2 ^ 52 * b)) as [Hlt|Hge].
    + rewrite (scaled_up a (k0 + 1)), (scaled_down b (k0 + 1)) by lia.
      rewrite E4. lia.
    + rewrite (scaled_up a k0), (scaled_down b k0) by lia. lia.
  - (* the quotient is 2^53 or more: the divisor is scaled up *)
    assert (2 ^ la = 2 ^ 52 * 2 ^ lb * 2 ^ (- k0)) as E1.
    { rewrite <- !Z.pow_add_r by lia. f_equal. subst k0. lia. }
    assert (2 ^ (- k0) = 2 * 2 ^ (- (k0 + 1))) as E4.
    { replace (- k0) with (Z.succ (- (k0 + 1))) by lia.
      rewrite Z.pow_succ_r by lia. f_equal. }
    assert (0 < 2 ^ (- (k0 + 1))) as Hp by (apply Z.pow_pos_nonneg; lia).
    rewrite (scaled_neg a k0), (scaled_up b (- k0)) by lia.
    set (P := 2 ^ (- (k0 + 1))) in *.
    set (A := 2 ^ la) in *. set (B := 2 ^ lb) in *.
    assert (0 < 2 ^ (- k0)) as Hp' by lia.
    set (P' := 2 ^ (- k0)) in *.
    assert (B * P' <= b * P') as H1 by nia.
    assert (b * P' < 2 * B * P') as H2 by nia.
    destruct (Z.ltb_spec a (2 ^ 52 * (b * P'))) as [Hlt|Hge].
    + rewrite (scaled_neg a (k0 + 1)), (scaled_up b (- (k0 + 1))) by lia.
      fold P. nia.
    + rewrite (scaled_neg a k0), (scaled_up b (- k0)) by lia. fold P'. nia.
Qed.




(** Rounding to the nearest integer errs by a half at most. *)
Lemma round_half_even_error n d :
  0 < d -> - d <= 2 * (round_half_even n d * d - n) <= d.
Proof.
  intros Hd. unfold round_half_even.
  assert (d <> 0) as Hnz by lia.
  pose proof (Z.div_mod n d Hnz) as Hdm.
  pose proof (Z.mod_pos_bound n d Hd) as Hr.
  set (q := n / d) in *. set (r := n mod d) in *.
  destruct (Z.ltb_spec d (2 * r)); cbn [orb].
  - nia.
  - destruct (Z.eqb_spec d (2 * r)); cbn [andb]; [destruct (Z.odd q)|]; nia.
Qed.

Lemma inject_Z_pos z : 0 < z -> (0 < inject_Z z)%Q.
Proof. intros H. unfold Qlt, inject_Z. cbn. lia. Qed.

Lemma Qdiv_pos (x y : Q) : (0 < x)%Q -> (0 < y)%Q -> (0 < x / y)%Q.
Proof. intros Hx Hy. apply Qlt_shift_div_l; [done|]. by rewrite Qmult_0_l. Qed.

(** The rounded quotient in terms of the scaled operands. *)
Lemma nearest_value a b :
  0 < a -> 0 < b ->
  (nearest a b * inject_Z (scaled a (exponent a b) * b)
   == inject_Z (round_half_even (scaled a (exponent a b))
                                (scaled b (- exponent a b))
                * scaled b (- exponent a b) * a))%Q.
Proof.
  intros Ha Hb. unfold nearest. set (k := exponent a b).
  set (m := round_half_even (scaled a k) (scaled b (- k))).
  destruct (Z.leb_spec 0 k) as [Hk|Hk].
  - rewrite (scaled_up a k), (scaled_down b k) by lia.
    assert (0 < 2 ^ k) as Hp by (apply Z.pow_pos_nonneg; lia).
    unfold Qeq, Qmult, inject_Z. cbn [Qnum Qden].
    rewrite Pos.mul_1_r, Z2Pos.id by lia. lia.
  - rewrite (scaled_neg a k), (scaled_up b (- k)) by lia.
    unfold Qeq, Qmult, inject_Z. cbn [Qnum Qden]. lia.
Qed.

(** The relative error of a rounded quotient is at most 2^-53. *)
Lemma nearest_error a b :
  0 < a -> 0 < b ->
  ((1 - unit_roundoff) * (inject_Z a / inject_Z b) <= nearest a b
   /\ nearest a b <= (1 + unit_roundoff) * (inject_Z a / inject_Z b))%Q.
Proof.
  intros Ha Hb.
  pose proof (nearest_value a b Ha Hb) as Hv.
  pose proof (exponent_spec a b Ha Hb) as Hk.
  set (k := exponent a b) in *.
  set (n := scaled a k) in *. set (d := scaled b (- k)) in *.
  pose proof (scaled_pos b (- k) Hb) as Hd. fold d in Hd.
  pose proof (round_half_even_error n d Hd) as Hm.
  set (m := round_half_even n d) in *.
  set (v := nearest a b) in *.
  assert (0 < n) as Hn by lia.
  assert (9007199254740992 * (m * d) <= 9007199254740993 * n
          /\ 9007199254740991 * n <= 9007199254740992 * (m * d))
    as [H1 H2] by lia.
  assert (inject_Z a / inject_Z b * inject_Z b == inject_Z a)%Q as Hx.
  { rewrite Qmult_comm. apply Qmult_div_r.
    intros E. apply (inject_Z_injective b 0) in E. lia. }
  set (x := (inject_Z a / inject_Z b)%Q) in *.
  assert (0 < inject_Z a)%Q as Qa by (by apply inject_Z_pos).
  assert (0 < inject_Z b)%Q as Qb by (by apply inject_Z_pos).
  assert (0 < inject_Z n)%Q as Qn by (by apply inject_Z_pos).
  rewrite !inject_Z_mult in Hv.
  rewrite Zle_Qle in H1, H2.
  rewrite !inject_Z_mult in H1, H2.
  change (inject_Z 9007199254740992) with (9007199254740992 # 1)%Q in H1, H2.
  change (inject_Z 9007199254740993) with (9007199254740993 # 1)%Q in H1.
  change (inject_Z 9007199254740991) with (9007199254740991 # 1)%Q in H2.
  unfold unit_roundoff.
  set (M := (inject_Z m * inject_Z d)%Q) in *.
  set (N := inject_Z n) in *. set (A := inject_Z a) in *.
  set (B := inject_Z b) in *.
  assert (v * N == M * x)%Q as Hvx.
  { assert (v * N * B == M * x * B)%Q as E by (rewrite <- Hx in Hv at 1; nra).
    nra. }
  assert (0 < x)%Q as Hxpos by nra.
  split; nra.
Qed.

Lemma round_zero q : (q == 0)%Q -> round q = 0%Q.
Proof.
  destruct q as [a p]. unfold Qeq. cbn. rewrite Z.mul_1_r. by intros ->.
Qed.

Lemma round_error q :
  (0 < q)%Q ->
  ((1 - unit_roundoff) * q <= round q
   /\ round q <= (1 + unit_roundoff) * q)%Q.
Proof.
  destruct q as [a p]. unfold Qlt. cbn [Qnum Qden]. rewrite Z.mul_1_r.
  intros Ha. destruct a as [|a|a]; try lia.
  unfold round. cbn [Qnum Qden].
  rewrite (Qmake_Qdiv (Z.pos a) p).
  apply nearest_error; lia.
Qed.

Lemma round_positive q : (0 < q)%Q -> (0 < round q)%Q.
Proof.
  intros Hq. destruct (round_error q Hq) as [Hlo _].
  unfold unit_roundoff in Hlo. nra.
Qed.


Lemma round_negative q : (q < 0)%Q -> (Double.round q < 0)%Q.
Proof.
  destruct q as [a p]. intros Hq.
  assert (a < 0) as Ha by (unfold Qlt in Hq; cbn [Qnum Qden] in Hq; lia).
  destruct a as [|a|a]; try lia.
  unfold round. cbn [Qnum Qden]. change (- Z.neg a) with (Z.pos a).
  assert (0 < Z.pos a) as H1 by lia. assert (0 < Z.pos p) as H2 by lia.
  pose proof (nearest_error _ _ H1 H2) as [Hlo _].
  pose proof (Qdiv_pos _ _ (inject_Z_pos _ H1) (inject_Z_pos _ H2)).
  unfold unit_roundoff in Hlo. nra.
Qed.

(** The sign of [double(ms) / 1000.0]. *)
Lemma timeSpan_sign (ms : Z) :
  Qle_bool (round (inject_Z ms / 1000)) 0 = (ms <=? 0).
Proof.
  change (inject_Z ms / 1000)%Q with (inject_Z ms * (1 # 1000))%Q.
  destruct (Z.leb_spec ms 0) as [Hle|Hgt].
  - apply Qle_bool_iff. destruct (Z.eq_dec ms 0) as [->|Hnz].
    + vm_compute. discriminate.
    + assert (ms < 0) as Hneg by lia. rewrite Zlt_Qlt in Hneg.
      change (inject_Z 0) with 0%Q in Hneg.
      assert (inject_Z ms * (1 # 1000) < 0)%Q as Hq by lra.
      pose proof (round_negative _ Hq). lra.
  - destruct (Qle_bool _ _) eqn:E; [|done].
    apply Qle_bool_iff in E. pose proof (inject_Z_pos _ Hgt) as Hpos.
    assert (0 < inject_Z ms * (1 # 1000))%Q as Hq by lra.
    pose proof (round_positive _ Hq). lra.
Qed.


End DoubleFacts.

(** ** Security rules *)

Section SecurityRules.
Import SecurityManager.

Lemma rulesFor_app vid pid (l1 l2 : list SecurityRule) :
  rulesFor vid pid (l1 ++ l2) = rulesFor vid pid l1 ++ rulesFor vid pid l2.
Proof. apply List.filter_app. Qed.

Lemma rulesFor_kept vid pid (r : SecurityRule) (rs : list SecurityRule) :
  rulesFor vid pid (List.filter (fun e => negb (sameDevice r e)) rs)
  = if (Rule.vendorId r =? vid) && (Rule.productId r =? pid)
    then [] else rulesFor vid pid rs.
Proof.
  unfold rulesFor, sameDevice.
  induction rs as [|e rs IH]; cbn [List.filter].
  - by destruct (_ && _).
  - destruct (Z.eqb_spec (Rule.vendorId e) (Rule.vendorId r)) as [Hv|Hv];
    destruct (Z.eqb_spec (Rule.productId e) (Rule.productId r)) as [Hp|Hp];
    cbn [andb negb List.filter]; rewrite IH;
    destruct (Z.eqb_spec (Rule.vendorId r) vid) as [Hv'|Hv'];
    destruct (Z.eqb_spec (Rule.productId r) pid) as [Hp'|Hp'];
    destruct (Z.eqb_spec (Rule.vendorId e) vid) as [Hv''|Hv''];
    destruct (Z.eqb_spec (Rule.productId e) pid) as [Hp''|Hp''];
    cbn [andb]; try done; congruence.
Qed.

Lemma rulesFor_add (p : Private) (r : SecurityRule) vid pid :
  rulesFor vid pid (rulesAfterAdd p r)
  = if (Rule.vendorId r =? vid) && (Rule.productId r =? pid)
    then [r] else rulesFor vid pid (rules (state p)).
Proof.
  change (rulesAfterAdd p r)
    with (List.filter (fun e => negb (sameDevice r e)) (rules (state p)) ++ [r]).
  rewrite rulesFor_app, rulesFor_kept. unfold rulesFor at 2. cbn [List.filter].
  destruct (_ && _); [done|]. by rewrite app_nil_r.
Qed.

(** C4.  Adding two rules for one (vendorId, productId) pair, one after
    the other, leaves exactly one rule for the pair, the second one; the
    rules of every other pair are the same, in the same order, as before
    the two calls. *)
Theorem addSecurityRule_twice (p : Private) (r1 r2 : SecurityRule) :
  Rule.vendorId r1 = Rule.vendorId r2 ->
  Rule.productId r1 = Rule.productId r2 ->
  let p1 := (addSecurityRule p r1).1 in
  rulesFor (Rule.vendorId r2) (Rule.productId r2) (rulesAfterAdd p1 r2) = [r2]
  /\ forall vid pid,
       (vid, pid) <> (Rule.vendorId r2, Rule.productId r2) ->
       rulesFor vid pid (rulesAfterAdd p1 r2) = rulesFor vid pid (rules (state p)).
Proof.
  intros Hv Hp p1. split.
  - rewrite rulesFor_add, !Z.eqb_refl. done.
  - intros vid pid Hne.
    assert ((Rule.vendorId r2 =? vid) && (Rule.productId r2 =? pid) = false)
      as Hoff.
    { apply andb_false_iff.
      destruct (Z.eqb_spec (Rule.vendorId r2) vid);
      destruct (Z.eqb_spec (Rule.productId r2) pid); auto.
      subst. congruence. }
    rewrite rulesFor_add, Hoff. subst p1.
    change (rules (state (addSecurityRule p r1).1)) with (rulesAfterAdd p r1).
    rewrite rulesFor_add, Hv, Hp, Hoff. done.
Qed.

Lemma addSecurityRule_twice_witness :
  rulesFor 0x1234 0x5678
    (rulesAfterAdd (addSecurityRule create (rule_1234_5678 false [])).1
                   (rule_1234_5678 true ["0x03"]))
  = [rule_1234_5678 true ["0x03"]].
Proof.
  exact (proj1 (addSecurityRule_twice create (rule_1234_5678 false [])
                  (rule_1234_5678 true ["0x03"]) eq_refl eq_refl)).
Defined.

(** C10.  [setSecurityLevel] with the level that is already stored (Medium
    after construction) changes nothing and emits nothing; with another
    level it stores the level, installs the preset of the level (none for
    Custom) and emits [securityLevelChanged]. *)
Theorem setSecurityLevel_same_level (p : Private) (level : SecurityLevel) :
  currentLevel (state create) = Medium
  /\ (level = currentLevel (state p) -> setSecurityLevel p level = (p, []))
  /\ (level <> currentLevel (state p) ->
      let '(p', sig) := setSecurityLevel p level in
      currentLevel (state p') = level
      /\ last sig = Some (securityLevelChanged level)
      /\ DeviceAuthorizer.policy (authorizer p')
         = default (DeviceAuthorizer.policy (authorizer p)) (presetPolicy level)
      /\ rules (state p') = rules (state p)
      /\ events (state p') = events (state p)
      /\ authorizedDevices (state p') = authorizedDevices (state p)).
Proof.
  split; [done|]. split.
  - intros ->. unfold setSecurityLevel.
    by destruct (currentLevel (state p)).
  - intros Hne. unfold setSecurityLevel.
    destruct (SecurityLevel_eqb (currentLevel (state p)) level) eqn:E.
    { destruct (currentLevel (state p)), level; try discriminate; congruence. }
    unfold enforceSecurityLevel. destruct level; cbn; done.
Qed.

Lemma setSecurityLevel_same_level_witness :
  setSecurityLevel create Medium = (create, [])
  /\ currentLevel (state (setSecurityLevel create High).1) = High.
Proof.
  split.
  - exact (proj1 (proj2 (setSecurityLevel_same_level create Medium)) eq_refl).
  - pose proof (proj2 (proj2 (setSecurityLevel_same_level create High))) as H.
    cbn in H. apply H. discriminate.
Defined.

End SecurityRules.


(** ** The authorization engine *)

Section Authorization.
Import DeviceAuthorizer.

Lemma stateOf_store (p : Private) (dev : UsbDevice) (s : DeviceAuthState) :
  stateOf (store p dev s) dev = s.
Proof. unfold stateOf, store. cbn. by rewrite lookup_insert_eq. Qed.

Lemma history_store (p : Private) (dev : UsbDevice) (s : DeviceAuthState) :
  getAuthorizationHistory (store p dev s) dev = history s.
Proof. unfold getAuthorizationHistory, store. cbn. by rewrite lookup_insert_eq. Qed.

Lemma createResult_fields (w : World) a why m :
  let '(r, w1) := createResult w a why m in
  authorized r = a /\ reason r = why /\ method r = m
  /\ prompts w1 = prompts w.
Proof. done. Qed.

(** C1.  Setting the level High installs the policy
    {autoAuthorize:false, requireConfirm:true, checkCert:true,
    enforceSysPolicy:true, timeout:15s}; under it a vendor-specific
    device without a cached, unexpired authorization is denied with
    "System policy violation" by the system-policy step, and neither the
    certificate check, nor a custom method, nor the user dialog is
    evaluated. *)
Theorem authorizeDevice_high_vendor_specific
        (L : LibusbConstants) (sm : SecurityManager.Private) (w : World)
        (dev : UsbDevice) :
  SecurityManager.currentLevel (SecurityManager.state sm)
    <> SecurityManager.High ->
  deviceClass dev = DeviceClass.VendorSpecific ->
  let a := SecurityManager.authorizer
             (SecurityManager.setSecurityLevel sm SecurityManager.High).1 in
  servedFromCache a w dev = false ->
  policy a = highPolicy
  /\ exists r a' w',
       authorizeDevice L a w (Some dev) = Done (r, a', w', [SystemPolicies])
       /\ authorized r = false
       /\ reason r = "System policy violation"
       /\ method r = SystemPolicy
       /\ prompts w' = prompts w.
Proof.
  intros Hlevel Hclass a Hcache.
  assert (policy a = highPolicy) as Hpol.
  { subst a. unfold SecurityManager.setSecurityLevel.
    destruct (SecurityManager.currentLevel (SecurityManager.state sm)); done. }
  split; [done|].
  unfold authorizeDevice. unfold servedFromCache in Hcache.
  destruct (stillAuthorized w (stateOf a dev)) as [cached w1] eqn:Hstill.
  cbn in Hcache. subst cached.
  destruct (now w1) as [t w2] eqn:Hnow.
  rewrite Hpol. cbn [autoAuthorizeKnownDevices highPolicy andb].
  unfold systemStage. rewrite Hpol. cbn [enforceSystemPolicies highPolicy].
  assert (checkSystemPolicies L dev = false) as ->.
  { unfold checkSystemPolicies. rewrite Hclass.
    by destruct (_ && _). }
  cbn [negb].
  destruct (createResult w2 false "System policy violation" SystemPolicy)
    as [r w3] eqn:Hres.
  exists r, (store a dev
               (pushResult {| isAuthorized := false; lastAuthAttempt := t;
                              history := history (stateOf a dev);
                              maxHistorySize := maxHistorySize (stateOf a dev) |}
                           r)), w3.
  split; [done|].
  unfold createResult in Hres. destruct (now w2) as [t' w2'] eqn:Hnow2.
  injection Hres as <- <-.
  unfold now in Hnow, Hnow2. injection Hnow as <- <-. injection Hnow2 as <- <-.
  cbn. repeat split; try done.
  unfold stillAuthorized, isAuthorizationExpired in Hstill.
  destruct (isAuthorized (stateOf a dev)); cbn in Hstill.
  - injection Hstill as _ <-. done.
  - injection Hstill as <-. done.
Qed.

Lemma authorizeDevice_high_vendor_specific_witness :
  exists r a' w',
    authorizeDevice libusb_1_0
      (SecurityManager.authorizer
         (SecurityManager.setSecurityLevel SecurityManager.create
                                           SecurityManager.High).1)
      world0 (Some gadget)
    = Done (r, a', w', [SystemPolicies])
    /\ authorized r = false
    /\ reason r = "System policy violation"
    /\ method r = SystemPolicy
    /\ prompts w' = prompts world0.
Proof.
  refine (proj2 (authorizeDevice_high_vendor_specific libusb_1_0
                   SecurityManager.create world0 gadget _ eq_refl eq_refl)).
  discriminate.
Defined.

Lemma pushed_pushResult p dev s r b :
  pushed p dev s r (store p dev (pushResult (setAuthorized s b) r)).
Proof. by eexists. Qed.

Lemma confirmStage_pushed p w dev s seen r p' w' seen' :
  confirmStage p w dev s seen = Done (r, p', w', seen') -> pushed p dev s r p'.
Proof.
  unfold confirmStage. destruct (requireUserConfirmation (policy p)).
  - destruct (promptUserForAuthorization w) as [r0 w0].
    intros [= <- <- <- <-]. eexists. split; [done|].
    by destruct (authorized r0).
  - destruct (createResult w true _ _) as [r0 w0].
    intros [= <- <- <- <-]. by eexists.
Qed.

Lemma customStage_pushed p w dev s seen r p' w' seen' :
  customStage p w dev s seen = Done (r, p', w', seen') -> pushed p dev s r p'.
Proof.
  unfold customStage. destruct (customMethods p !! deviceKey dev) as [f|].
  - destruct (authorized (f dev)); cbn [negb].
    + apply confirmStage_pushed.
    + intros [= <- <- <- <-]. by eexists.
  - apply confirmStage_pushed.
Qed.

Lemma certificateStage_pushed p w dev s seen r p' w' seen' :
  certificateStage p w dev s seen = Done (r, p', w', seen') ->
  pushed p dev s r p'.
Proof.
  unfold certificateStage. destruct (checkDeviceCertificates (policy p)).
  - cbn. discriminate.
  - apply customStage_pushed.
Qed.

Lemma systemStage_pushed L p w dev s r p' w' seen' :
  systemStage L p w dev s = Done (r, p', w', seen') -> pushed p dev s r p'.
Proof.
  unfold systemStage. destruct (enforceSystemPolicies (policy p)).
  - destruct (checkSystemPolicies L dev); cbn [negb].
    + apply certificateStage_pushed.
    + destruct (createResult w false _ _) as [r0 w0].
      intros [= <- <- <- <-]. by eexists.
  - apply certificateStage_pushed.
Qed.

(** The two ways a call for a device returns. *)
Lemma authorizeDevice_cases L p w dev r p' w' seen :
  authorizeDevice L p w (Some dev) = Done (r, p', w', seen) ->
  if servedFromCache p w dev
  then reason r = "Already authorized" /\ authorized r = true
       /\ p' = store p dev (stateOf p dev)
  else pushed p dev (stateOf p dev) r p'.
Proof.
  unfold authorizeDevice, servedFromCache.
  destruct (stillAuthorized w (stateOf p dev)) as [[|] w1]; cbn [fst].
  - destruct (createResult w1 true _ _) as [r0 w0] eqn:E.
    intros [= <- <- <- <-]. unfold createResult in E.
    destruct (now w1). by injection E as <- <-.
  - destruct (now w1) as [t w2].
    destruct (autoAuthorizeKnownDevices (policy p) && isKnownDevice dev).
    + destruct (createResult w2 true _ _) as [r0 w0].
      intros [= <- <- <- <-]. by eexists.
    + intros H. apply systemStage_pushed in H.
      destruct H as (s' & -> & Hmax & Hhist). by exists s'.
Qed.

Lemma capped_create : capped create.
Proof. intros k s H. cbn in H. by rewrite lookup_empty in H. Qed.

Lemma capped_stateOf p dev : capped p -> maxHistorySize (stateOf p dev) = 100%nat.
Proof.
  intros Hc. unfold stateOf.
  destruct (deviceStates p !! ptr dev) as [s|] eqn:E; [by apply (Hc _ _ E)|done].
Qed.

Lemma capped_store p dev s :
  capped p -> maxHistorySize s = 100%nat -> capped (store p dev s).
Proof.
  intros Hc Hs k s0. unfold store. cbn.
  rewrite lookup_insert. case_decide.
  - by intros [= <-].
  - apply Hc.
Qed.

(** The cap of 100 is an invariant of the authorizer. *)
Lemma capped_authorizeDevice L p w device r p' w' seen :
  capped p ->
  authorizeDevice L p w device = Done (r, p', w', seen) ->
  capped p'.
Proof.
  intros Hc. destruct device as [dev|].
  - intros H. apply authorizeDevice_cases in H.
    destruct (servedFromCache p w dev).
    + destruct H as (_ & _ & ->). apply capped_store; [done|].
      by apply capped_stateOf.
    + destruct H as (s' & -> & Hmax & _). apply capped_store; [done|].
      rewrite Hmax. by apply capped_stateOf.
  - cbn. destruct (now w). by intros [= _ <- _ _].
Qed.

(** Without the certificate check the call always returns. *)
Lemma authorizeDevice_returns L p w device :
  checkDeviceCertificates (policy p) = false ->
  exists ret, authorizeDevice L p w device = Done ret.
Proof.
  intros Hcert. destruct device as [dev|]; unfold authorizeDevice.
  - destruct (stillAuthorized w (stateOf p dev)) as [[|] w1].
    + destruct (createResult w1 true "Already authorized" Automatic).
      by eexists.
    + destruct (now w1) as [t w2].
      destruct (_ && _).
      * destruct (createResult w2 true "Known device type" Automatic).
        by eexists.
      * unfold systemStage, certificateStage, customStage, confirmStage.
        rewrite Hcert.
        repeat match goal with
               | |- context [if ?b then _ else _] => destruct b
               | |- context [match ?o with Some _ => _ | None => _ end] =>
                   destruct o
               | |- context [let '(_, _) := ?x in _] => destruct x
               end; by eexists.
  - destruct (createResult w false "Invalid device" Automatic). by eexists.
Qed.

(** With the certificate check switched on, a call that comes as far as
    that check takes [stateMutex] a second time and never returns. *)
Lemma authorizeDevice_certificate_relock L p w dev :
  checkDeviceCertificates (policy p) = true ->
  autoAuthorizeKnownDevices (policy p) = false ->
  servedFromCache p w dev = false ->
  (enforceSystemPolicies (policy p) = true -> checkSystemPolicies L dev = true) ->
  authorizeDevice L p w (Some dev) = Relock.
Proof.
  intros Hcert Hauto Hcache Hsys. unfold authorizeDevice.
  unfold servedFromCache in Hcache.
  destruct (stillAuthorized w (stateOf p dev)) as [c w1]. cbn in Hcache.
  subst c. destruct (now w1) as [t w2]. rewrite Hauto. cbn [andb].
  unfold systemStage, certificateStage. rewrite Hcert.
  destruct (enforceSystemPolicies (policy p)); [rewrite Hsys by done|]; done.
Qed.

(** C2, amended.  A call for a device that is not answered from the cache
    and returns has pushed the very result it returns on the history of
    the device, which holds at most 100 entries, the oldest evicted
    first; a call answered from the cache returns "Already authorized"
    and leaves the history as it was. *)
Theorem authorizeDevice_history (L : LibusbConstants) (p : Private)
        (w : World) (dev : UsbDevice) r p' w' seen :
  capped p ->
  authorizeDevice L p w (Some dev) = Done (r, p', w', seen) ->
  let h := history (stateOf p dev) in
  let h' := getAuthorizationHistory p' dev in
  if servedFromCache p w dev
  then reason r = "Already authorized" /\ authorized r = true /\ h' = h
  else h' = Deque.push_bounded 100 h r
       /\ last h' = Some r
       /\ (length h' <= 100)%nat.
Proof.
  intros Hc H h h'. apply authorizeDevice_cases in H.
  destruct (servedFromCache p w dev).
  - destruct H as (Hr & Ha & ->). subst h'. by rewrite history_store.
  - destruct H as (s' & -> & _ & Hhist). subst h'.
    rewrite history_store, Hhist, capped_stateOf by done.
    split; [done|]. split.
    + apply push_bounded_last. lia.
    + apply push_bounded_length.
Qed.

Lemma authorizeDevice_history_witness :
  exists r,
    last (getAuthorizationHistory afterFirstCall.1 keyboard) = Some r
    /\ reason r = "Known device type".
Proof.
  destruct (authorizeDevice libusb_1_0 create world0 (Some keyboard))
    as [[[[r p'] w'] seen]|] eqn:E; [|discriminate].
  pose proof (authorizeDevice_history libusb_1_0 create world0 keyboard
                r p' w' seen capped_create E) as H.
  cbn in H. destruct H as (_ & Hlast & _).
  assert (afterFirstCall.1 = p') as ->.
  { unfold afterFirstCall. by rewrite E. }
  exists r. split; [exact Hlast|].
  vm_compute in E. by injection E as <- _ _ _.
Defined.

(** C2 as stated fails on the cached path: the second of two calls for
    the keyboard returns "Already authorized", and the history still ends
    with the result of the first call. *)
Lemma authorizeDevice_cached_not_recorded :
  ~ recordsResult libusb_1_0 afterFirstCall.1 afterFirstCall.2 keyboard.
Proof.
  intros H.
  destruct (authorizeDevice libusb_1_0 afterFirstCall.1 afterFirstCall.2
              (Some keyboard)) as [[[[r p'] w'] seen]|] eqn:E.
  - specialize (H r p' w' seen E).
    vm_compute in E. injection E as <- <- <- <-.
    vm_compute in H. discriminate.
  - vm_compute in E. discriminate.
Qed.

End Authorization.


(** ** The security coordinator: interface restrictions *)

Section InterfaceRestriction.
Import SecurityManager.

Lemma settingsAllowed_forallb allowed settings :
  settingsAllowed allowed settings
  = forallb (fun s => isListed allowed (interfaceId (bInterfaceClass s))) settings.
Proof.
  induction settings as [|s rest IH]; [done|]. cbn.
  by destruct (isListed allowed _).
Qed.

Lemma interfacesAllowed_forallb allowed ifaces :
  interfacesAllowed allowed ifaces
  = forallb (fun i => settingsAllowed allowed (altsetting i)) ifaces.
Proof.
  induction ifaces as [|i rest IH]; [done|]. cbn.
  by destruct (settingsAllowed allowed _).
Qed.

Lemma validateDeviceInterfaces_unlisted (d : UsbDevice) (rule : SecurityRule) cls :
  Rule.allowedInterfaces rule <> [] ->
  declaresClass d cls ->
  isListed (Rule.allowedInterfaces rule) (interfaceId cls) = false ->
  validateDeviceInterfaces d rule = false.
Proof.
  intros Hne (config & i & setting & Hcfg & Hi & Hs & Hcls) Hunlisted.
  unfold validateDeviceInterfaces.
  destruct (Rule.allowedInterfaces rule) as [|a0 allowed] eqn:E; [done|].
  rewrite Hcfg, interfacesAllowed_forallb.
  apply not_true_is_false. intros Hall.
  rewrite forallb_forall in Hall.
  specialize (Hall i (proj1 (list_elem_of_In _ _) Hi)).
  rewrite settingsAllowed_forallb, forallb_forall in Hall.
  specialize (Hall setting (proj1 (list_elem_of_In _ _) Hs)).
  congruence.
Qed.

Lemma logSecurityEvent_logged p w ev d text :
  exists t w1,
    let info := {| event := ev; timestamp := t; deviceId := eventDeviceId d;
                   description := text;
                   securityLevel := currentLevel (state p) |} in
    logSecurityEvent p w ev (Some d) text
    = (withState p (withEvents (state p)
                      (Deque.push_bounded (maxEventHistory (state p))
                                          (events (state p)) info)),
       w1, [securityEventOccurred info]).
Proof. unfold logSecurityEvent. destruct (now w) as [t w1]. by exists t, w1. Qed.

(** The identifier of a class byte is ["0x03"] only for the class 3. *)
Lemma interfaceId_03 cls :
  0 <= cls < 256 -> interfaceId cls = "0x03" -> cls = 3.
Proof.
  intros Hrange Hid.
  assert (forallb (fun c => implb (String.eqb (interfaceId c) "0x03") (c =? 3))
                  (map Z.of_nat (seq 0 256)) = true) as Hall
    by (vm_compute; reflexivity).
  rewrite forallb_forall in Hall.
  assert (In cls (map Z.of_nat (seq 0 256))) as Hin.
  { apply in_map_iff. exists (Z.to_nat cls). split; [lia|]. apply in_seq. lia. }
  specialize (Hall cls Hin). rewrite Hid, String.eqb_refl in Hall.
  cbn [implb] in Hall. by apply Z.eqb_eq.
Qed.

(** C8.  For a device that is not in the cache of authorized devices and
    whose first matching rule is whitelisted with allowedInterfaces =
    ["0x03"], [isDeviceAllowed] returns false as soon as the device
    declares an interface class other than 3 (0x08, say), and the denial
    is stored and emitted as a PolicyViolation event; with an empty
    allowedInterfaces every interface class passes, and the device is
    allowed unless the rule has expired. *)
Theorem isDeviceAllowed_interface_restriction
        (p : Private) (w : World) (d : UsbDevice) :
  authorizedDevices (state p) !! deviceKey d = None ->
  Rule.isWhitelisted (findMatchingRule p (Some d)) = true ->
  (forall cls,
     Rule.allowedInterfaces (findMatchingRule p (Some d)) = ["0x03"] ->
     declaresClass d cls -> 0 <= cls < 256 -> cls <> 3 ->
     (0 < maxEventHistory (state p))%nat ->
     exists p' w' info,
       isDeviceAllowed p w (Some d)
       = (false, p', w', [securityEventOccurred info])
       /\ event info = PolicyViolation
       /\ description info = "Device uses unauthorized interfaces"
       /\ last (events (state p')) = Some info)
  /\ (Rule.allowedInterfaces (findMatchingRule p (Some d)) = [] ->
      validateDeviceInterfaces d (findMatchingRule p (Some d)) = true
      /\ forall w1,
           ruleExpired w (findMatchingRule p (Some d)) = (false, w1) ->
           isDeviceAllowed p w (Some d) = (true, p, w1, [])).
Proof.
  intros Hcache Hwhite. split.
  - intros cls Hallowed Hdecl Hrange Hcls Hcap.
    assert (validateDeviceInterfaces d (findMatchingRule p (Some d)) = false)
      as Hinvalid.
    { apply (validateDeviceInterfaces_unlisted _ _ cls); [by rewrite Hallowed|done|].
      rewrite Hallowed. cbn. rewrite orb_false_r.
      apply String.eqb_neq. intros Hid. by apply Hcls, interfaceId_03. }
    unfold isDeviceAllowed. rewrite Hcache, Hwhite, Hinvalid. cbn [negb].
    destruct (logSecurityEvent_logged p w PolicyViolation d
                "Device uses unauthorized interfaces") as (t & w1 & Hlog).
    cbn zeta in Hlog. rewrite Hlog. eexists _, _, _.
    split; [done|]. cbn. repeat split.
    by apply push_bounded_last.
  - intros Hallowed.
    assert (validateDeviceInterfaces d (findMatchingRule p (Some d)) = true)
      as Hvalid by (unfold validateDeviceInterfaces; by rewrite Hallowed).
    split; [done|]. intros w1 Hexp.
    unfold isDeviceAllowed. by rewrite Hcache, Hwhite, Hvalid, Hexp.
Qed.

Lemma isDeviceAllowed_interface_restriction_witness :
  (exists p' w' info,
     isDeviceAllowed (managerWithRule ["0x03"]) world0
                     (Some (deviceWithInterface 0x08 bulkIn))
     = (false, p', w', [securityEventOccurred info])
     /\ event info = PolicyViolation
     /\ description info = "Device uses unauthorized interfaces"
     /\ last (events (state p')) = Some info)
  /\ isDeviceAllowed (managerWithRule []) world0
                     (Some (deviceWithInterface 0x08 bulkIn))
     = (true, managerWithRule [], world0, []).
Proof.
  split.
  - refine (proj1 (isDeviceAllowed_interface_restriction
                     (managerWithRule ["0x03"]) world0
                     (deviceWithInterface 0x08 bulkIn) eq_refl eq_refl)
                  0x08 eq_refl _ _ _ _); [|lia|lia|cbn; lia].
    eexists _, _, _. split; [reflexivity|].
    split; [apply list_elem_of_here|].
    split; [apply list_elem_of_here|reflexivity].
  - refine (proj2 (proj2 (isDeviceAllowed_interface_restriction
                     (managerWithRule []) world0
                     (deviceWithInterface 0x08 bulkIn) eq_refl eq_refl)
                  eq_refl) world0 eq_refl).
Defined.

End InterfaceRestriction.


(** ** The security coordinator: protocol validation *)

Section ProtocolValidation.
Import SecurityManager.
Variable L : LibusbConstants.
Variable d : UsbDevice.

Lemma violation_flagged cap text (a : Scan) :
  maxEventHistory (state a.1.1.2) = cap ->
  maxEventHistory (state (violation d text a).1.1.2) = cap
  /\ flagged cap (violation d text a).
Proof.
  destruct a as [[[valid p] w] sig]. cbn [fst snd]. intros Hcap.
  unfold violation.
  destruct (logSecurityEvent_logged p w ProtocolViolation d text)
    as (t & w1 & Hlog).
  cbn zeta in Hlog. rewrite Hlog. cbn. split; [done|]. split; [done|].
  eexists. split; [apply last_snoc|]. split; [done|].
  intros Hpos. rewrite Hcap. by apply push_bounded_last.
Qed.

Lemma violation_scanning cap text a :
  scanning cap a -> scanning cap (violation d text a).
Proof.
  intros [Hcap _]. destruct (violation_flagged cap text a Hcap).
  split; [done|by right].
Qed.


Lemma scanEndpoints_invalid eps a :
  scanValid a = false -> scanEndpoints L d eps a = a.
Proof. intros H. destruct eps; cbn; [done|by rewrite H]. Qed.



Lemma scanEndpoints_scanning cap eps a :
  scanning cap a -> scanning cap (scanEndpoints L d eps a).
Proof.
  revert a. induction eps as [|e rest IH]; intros a Ha; [done|].
  cbn [scanEndpoints]. destruct (scanValid a); [|done].
  set (a1 := if isStandardTransferType L (transferType L e) then a
             else violation d "Invalid endpoint transfer type" a).
  assert (scanning cap a1) as Ha1.
  { subst a1. destruct (isStandardTransferType L _); [done|].
    by apply violation_scanning. }
  destruct (16384 <? wMaxPacketSize e); [by apply violation_scanning|by apply IH].
Qed.


Lemma scanSettings_step_scanning cap (s : libusb_interface_descriptor) a :
  scanning cap a ->
  scanning cap
    (if isCommonClass L (bInterfaceClass s) then a
     else if bInterfaceClass s <? LIBUSB_CLASS_VENDOR_SPEC L
          then violation d "Unknown interface class detected" a
          else a).
Proof.
  intros Ha. destruct (isCommonClass L _); [done|].
  destruct (_ <? _); [by apply violation_scanning|done].
Qed.

Lemma scanSettings_scanning cap settings a :
  scanning cap a -> scanning cap (scanSettings L d settings a).
Proof.
  revert a. induction settings as [|s rest IH]; intros a Ha; [done|].
  cbn [scanSettings]. destruct (scanValid a); [|done].
  by apply IH, scanEndpoints_scanning, scanSettings_step_scanning.
Qed.




End ProtocolValidation.


(** With the constants of libusb 1.0 the masked attribute byte is always
    one of the four transfer types: no endpoint has another one. *)
Lemma transferType_libusb_1_0 (e : libusb_endpoint_descriptor) :
  SecurityManager.isStandardTransferType libusb_1_0
    (SecurityManager.transferType libusb_1_0 e) = true.
Proof.
  unfold SecurityManager.transferType, SecurityManager.isStandardTransferType.
  cbn [LIBUSB_TRANSFER_TYPE_MASK LIBUSB_TRANSFER_TYPE_CONTROL
       LIBUSB_TRANSFER_TYPE_ISOCHRONOUS LIBUSB_TRANSFER_TYPE_BULK
       LIBUSB_TRANSFER_TYPE_INTERRUPT libusb_1_0].
  change 3 with (Z.ones 2). rewrite Z.land_ones by lia.
  assert (0 <= bmAttributes e mod 2 ^ 2 < 2 ^ 2) as H
    by (apply Z.mod_pos_bound; lia).
  assert (bmAttributes e mod 2 ^ 2 = 0 \/ bmAttributes e mod 2 ^ 2 = 1
          \/ bmAttributes e mod 2 ^ 2 = 2 \/ bmAttributes e mod 2 ^ 2 = 3)
    as [-> | [-> | [-> | ->]]] by lia; reflexivity.
Qed.


(** ** The device registry and its monitors *)

Section Registry.
Import DeviceManager.
Variable L : LibusbConstants.






(** A firing for an object without timers leaves the whole state alone. *)
Lemma tick_unmonitored_noop m dev t :
  unmonitored (ptr dev) m ->
  tick L m (PowerTick dev) = (m, [])
  /\ tick L m (BandwidthTick dev t) = (m, []).
Proof.
  intros [Hpower Hbw]. cbn [tick].
  unfold PowerManager.timeout, BandwidthMonitor.timeout.
  rewrite !bool_decide_eq_false_2 by done. by destruct m.
Qed.


End Registry.




(** ** The protocol analyzer: bounded transfer history *)

Section TransferHistory.
Import ProtocolAnalyzer.










End TransferHistory.


(** ** The bandwidth monitor: sample window and speed *)

Section BandwidthSpeed.
Import BandwidthMonitor.

Lemma elapsed_ms_same t : elapsed_ms t t = 0.
Proof. unfold elapsed_ms. by rewrite Z.sub_diag. Qed.

Lemma elapsed_ms_mono a b t : a <= b -> elapsed_ms b t <= elapsed_ms a t.
Proof.
  intros Hab. unfold elapsed_ms, steady_clock_ticks_per_ms.
  apply Z.quot_le_mono; lia.
Qed.

Lemma prune_suffix t history : prune t history `suffix_of` history.
Proof.
  induction history as [|s rest IH]; [done|]. cbn [prune].
  destruct (BANDWIDTH_WINDOW <? elapsed_ms s.1 t); [|done].
  by apply suffix_cons_r.
Qed.

Lemma prune_snoc t history x :
  last (prune t (history ++ [(t, x)])) = Some (t, x).
Proof.
  induction history as [|s rest IH]; cbn [app prune fst].
  - by rewrite elapsed_ms_same.
  - destruct (BANDWIDTH_WINDOW <? elapsed_ms s.1 t); [done|].
    apply (last_snoc (t, x) (s :: rest)).
Qed.

Lemma timeOrderedFrom_lower lo history :
  timeOrderedFrom lo history -> forall s, s ∈ history -> lo <= s.1.
Proof.
  revert lo. induction history as [|s0 rest IH]; intros lo Hord s Hin.
  - by apply not_elem_of_nil in Hin.
  - destruct Hord as [Hlo Hrest].
    apply elem_of_cons in Hin as [->|Hin]; [done|].
    specialize (IH _ Hrest s Hin). lia.
Qed.

Lemma timeOrderedFrom_snoc lo history t x :
  timeOrderedFrom lo history -> lo <= t ->
  (forall s, s ∈ history -> s.1 <= t) ->
  timeOrderedFrom lo (history ++ [(t, x)]).
Proof.
  revert lo. induction history as [|s0 rest IH]; intros lo Hord Hlo Hle.
  - by cbn.
  - destruct Hord as [Hlo0 Hrest]. cbn [app timeOrderedFrom]. split; [done|].
    apply IH; [done| |].
    + apply Hle, list_elem_of_here.
    + intros s Hs. apply Hle. by apply list_elem_of_further.
Qed.

Lemma prune_window lo t history :
  timeOrderedFrom lo history ->
  forall s, s ∈ prune t history -> elapsed_ms s.1 t <= BANDWIDTH_WINDOW.
Proof.
  revert lo. induction history as [|s0 rest IH]; intros lo Hord s Hin.
  - by apply not_elem_of_nil in Hin.
  - destruct Hord as [Hlo Hrest]. cbn [prune] in Hin.
    destruct (Z.ltb_spec BANDWIDTH_WINDOW (elapsed_ms s0.1 t)) as [Hold|Hnew].
    + by apply (IH _ Hrest).
    + apply elem_of_cons in Hin as [->|Hin]; [done|].
      pose proof (timeOrderedFrom_lower _ _ Hrest s Hin) as Hs.
      pose proof (elapsed_ms_mono _ _ t Hs). lia.
Qed.

(** The speed in terms of the whole milliseconds and the byte span. *)
Lemma calculateSpeed_unfold front second rest :
  let history := front :: second :: rest in
  let back := List.last history front in
  let ms := elapsed_ms front.1 back.1 in
  let bytes := uint64 (back.2 - front.2) in
  calculateSpeed history
  = if negb (ms <=? 0)
    then Double.round
           (Double.round (inject_Z bytes) / Double.round (inject_Z ms / 1000))
    else 0%Q.
Proof.
  intros history back ms bytes. unfold calculateSpeed, history.
  cbv beta iota zeta. by rewrite timeSpan_sign.
Qed.

(** Three roundings: of the byte span, of the time span and of their
    quotient. *)
Lemma speed_rounding (ms bytes : Z) :
  0 < ms -> 0 <= bytes ->
  (Qabs (Double.round
           (Double.round (inject_Z bytes) / Double.round (inject_Z ms / 1000))
         - inject_Z bytes / (inject_Z ms / 1000))
   <= inject_Z bytes / (inject_Z ms / 1000) * (1 # 2251799813685248))%Q.
Proof.
  intros Hms Hb.
  set (exact := (inject_Z bytes / (inject_Z ms / 1000))%Q).
  assert (0 < inject_Z ms / 1000)%Q as Ht
    by (apply Qdiv_pos; [by apply inject_Z_pos|done]).
  destruct (round_error _ Ht) as [Ht1 Ht2].
  pose proof (round_positive _ Ht) as Htpos.
  set (t := (inject_Z ms / 1000)%Q) in *.
  set (th := Double.round t) in *.
  assert (exact * t == inject_Z bytes)%Q as HE.
  { subst exact. rewrite Qmult_comm. apply Qmult_div_r. lra. }
  apply Qabs_Qle_condition.
  destruct (Z.eq_dec bytes 0) as [->|Hnz].
  - change (Double.round (inject_Z 0)) with 0%Q.
    assert (Double.round (0 / th) = 0%Q) as ->
      by (apply round_zero; unfold Qdiv; apply Qmult_0_l).
    assert (exact == 0)%Q as Hz.
    { subst exact. change (inject_Z 0) with 0%Q. unfold Qdiv.
      apply Qmult_0_l. }
    rewrite Hz. split; lra.
  - assert (0 < inject_Z bytes)%Q as Hx by (apply inject_Z_pos; lia).
    destruct (round_error _ Hx) as [Hx1 Hx2].
    pose proof (round_positive _ Hx) as Hxpos.
    set (x := inject_Z bytes) in *. set (xh := Double.round x) in *.
    assert (0 < xh / th)%Q as Hq by (by apply Qdiv_pos).
    destruct (round_error _ Hq) as [Hs1 Hs2].
    assert (xh / th * th == xh)%Q as Hqt.
    { rewrite Qmult_comm. apply Qmult_div_r. lra. }
    set (q := (xh / th)%Q) in *. set (s := Double.round q) in *.
    unfold unit_roundoff in *.
    assert (0 < exact)%Q as HEpos by nra.
    assert ((1 - (1 # 9007199254740992)) * xh <= s * th)%Q as A1 by nra.
    assert (s * th <= (1 + (1 # 9007199254740992)) * xh)%Q as B1 by nra.
    assert (exact * th <= (1 + (1 # 9007199254740992)) * x)%Q as A3 by nra.
    assert ((1 - (1 # 9007199254740992)) * x <= exact * th)%Q as B3 by nra.
    split.
    + assert ((1 - (1 # 2251799813685248)) * exact * th <= s * th)%Q by lra.
      nra.
    + assert (s * th <= (1 + (1 # 2251799813685248)) * exact * th)%Q by lra.
      nra.
Qed.

(** C7, amended.  The speed of a window is 0 when it holds fewer than two
    samples, or when its first and last sample are less than one whole
    millisecond apart; otherwise it is, up to the rounding of double
    arithmetic (a relative error of 2^-51 at most), the growth of the
    cumulative byte count (as [uint64_t]) divided by the whole
    milliseconds between the first and the last sample, taken as seconds.
    Each [updateTransferStats] appends the sample of its reading and
    leaves a suffix of the window in which, for time-ordered samples,
    none is more than 5000 ms old.  Growth by 4096 bytes every 100 ms
    over 1000 ms gives 40960 bytes per second. *)
Theorem calculateSpeed_law :
  (forall history, (length history < 2)%nat -> calculateSpeed history = 0%Q)
  /\ (forall front second rest,
        let history := front :: second :: rest in
        let back := List.last history front in
        let ms := elapsed_ms front.1 back.1 in
        let exact :=
          (inject_Z (uint64 (back.2 - front.2)) / (inject_Z ms / 1000))%Q in
        (0 < ms ->
         (Qabs (calculateSpeed history - exact)
          <= exact * (1 # 2251799813685248))%Q)
        /\ (ms <= 0 -> calculateSpeed history = 0%Q))
  /\ (forall lo history total size t,
        timeOrderedFrom lo history -> lo <= t ->
        (forall s, s ∈ history -> s.1 <= t) ->
        let result := updateTransferStats history total size t in
        result.2 = uint64 (total + size)
        /\ last result.1 = Some (t, result.2)
        /\ result.1 `suffix_of` history ++ [(t, result.2)]
        /\ forall s, s ∈ result.1 -> elapsed_ms s.1 t <= BANDWIDTH_WINDOW)
  /\ calculateSpeed (feed 4096 every100ms ([], 0)).1 == 40960.
Proof.
  split; [|split; [|split]].
  - intros [|s [|s' rest]] Hlen; cbn in *; [done|done|lia].
  - intros front second rest history back ms exact.
    subst history. rewrite calculateSpeed_unfold. fold back. fold ms.
    destruct (Z.leb_spec ms 0) as [Hle|Hgt]; cbn [negb].
    + split; [intros; lia|done].
    + split; [intros _|intros; lia].
      apply speed_rounding; [done|].
      unfold uint64. apply Z.mod_pos_bound. lia.
  - intros lo history total size t Hord Hlo Hle result.
    subst result. unfold updateTransferStats. cbn [fst snd].
    split; [done|]. split; [apply prune_snoc|].
    split; [apply prune_suffix|].
    apply (prune_window lo). by apply timeOrderedFrom_snoc.
  - vm_compute. reflexivity.
Qed.

Lemma calculateSpeed_law_witness :
  (Qabs (calculateSpeed steadyWindow
         - inject_Z 4096 / (inject_Z 100 / 1000))
   <= inject_Z 4096 / (inject_Z 100 / 1000) * (1 # 2251799813685248))%Q
  /\ calculateSpeed firstTickWindow = 0%Q.
Proof.
  destruct calculateSpeed_law as (_ & Hlaw & _).
  split.
  - exact (proj1 (Hlaw (0, 4096) (100000000, 8192) []) eq_refl).
  - exact (proj2 (Hlaw (0, 512) (0, 1024) []) ltac:(vm_compute; discriminate)).
Defined.

(** C7 as stated fails on two windows of two samples: the one a device
    with two IN endpoints has after its first tick, whose samples carry
    the same reading, and one whose samples are 100.5 ms apart. *)
Lemma calculateSpeed_not_speedLaw :
  firstTickWindow = [(0, 512); (0, 1024)]
  /\ ~ speedLaw firstTickWindow (calculateSpeed firstTickWindow)
  /\ jitterWindow = [(0, 4096); (100500000, 8192)]
  /\ ~ speedLaw jitterWindow (calculateSpeed jitterWindow).
Proof.
  split; [vm_compute; reflexivity|]. split; [|split; [vm_compute; reflexivity|]].
  - intros [Hnz _]. apply Hnz. vm_compute. reflexivity.
  - intros [_ Heq]. vm_compute in Heq. discriminate.
Qed.

End BandwidthSpeed.


(** ** Ordered maps *)

Section StdMapFacts.
Context {V : Type}.
Implicit Types (m : list (Z * V)) (d : V) (k lo : Z).







End StdMapFacts.






(** ** The protocol analyzer: problematic endpoints *)

Section ErrorRates.
Import ProtocolAnalyzer.















End ErrorRates.


(** ** The authorization engine: verdicts, revocation, certificates *)

Section AuthorizerCalls.
Import DeviceAuthorizer.

Ltac in_list :=
  repeat first [apply list_elem_of_here | apply list_elem_of_further].

Lemma stillAuthorized_value (w : World) (s : DeviceAuthState) :
  (stillAuthorized w s).1
  = isAuthorized s
    && (Z.quot (clock w (reads w) - lastAuthAttempt s)
               system_clock_ticks_per_hour <? 24).
Proof.
  unfold stillAuthorized, isAuthorizationExpired, now.
  destruct (isAuthorized s); cbn; [|done].
  by rewrite Z.leb_antisym, negb_involutive.
Qed.

Lemma stillAuthorized_clock (w : World) (s : DeviceAuthState) :
  let w1 := (stillAuthorized w s).2 in
  clock w1 = clock w /\ (reads w <= reads w1 <= S (reads w))%nat
  /\ answer w1 = answer w /\ prompts w1 = prompts w.
Proof.
  unfold stillAuthorized, isAuthorizationExpired, now.
  destruct (isAuthorized s); cbn; repeat split; lia.
Qed.

Lemma confirmStage_settled p w dev s seen r p' w' seen' :
  isAuthorized s = false ->
  confirmStage p w dev s seen = Done (r, p', w', seen') ->
  settled p w dev s r p' w'.
Proof.
  intros Hs. unfold confirmStage, promptUserForAuthorization, createResult,
               askUser, now.
  destruct (requireUserConfirmation (policy p)).
  - intros [= <- <- <- <-]. cbn.
    destruct (answer w (prompts w)); eexists; cbn;
      repeat split; try done; try lia; intros _; in_list.
  - intros [= <- <- <- <-]. eexists; cbn. repeat split; try done; try lia.
    intros _; in_list.
Qed.

Lemma customStage_settled p w dev s seen r p' w' seen' :
  isAuthorized s = false ->
  customStage p w dev s seen = Done (r, p', w', seen') ->
  settled p w dev s r p' w'.
Proof.
  intros Hs. unfold customStage.
  destruct (customMethods p !! deviceKey dev) as [f|].
  - destruct (authorized (f dev)) eqn:Hf; cbn [negb].
    + by apply confirmStage_settled.
    + intros [= <- <- <- <-]. eexists. cbn.
      repeat split; try done; try lia.
      * unfold pushResult. cbn. congruence.
      * congruence.
  - by apply confirmStage_settled.
Qed.

Lemma certificateStage_settled p w dev s seen r p' w' seen' :
  isAuthorized s = false ->
  certificateStage p w dev s seen = Done (r, p', w', seen') ->
  settled p w dev s r p' w'.
Proof.
  intros Hs. unfold certificateStage.
  destruct (checkDeviceCertificates (policy p)).
  - cbn. discriminate.
  - by apply customStage_settled.
Qed.

Lemma systemStage_settled L p w dev s r p' w' seen' :
  isAuthorized s = false ->
  systemStage L p w dev s = Done (r, p', w', seen') ->
  settled p w dev s r p' w'.
Proof.
  intros Hs. unfold systemStage. destruct (enforceSystemPolicies (policy p)).
  - destruct (checkSystemPolicies L dev); cbn [negb].
    + by apply certificateStage_settled.
    + unfold createResult, now. intros [= <- <- <- <-]. eexists. cbn.
      repeat split; try done; lia.
  - by apply certificateStage_settled.
Qed.

(** The two ways a call for a device returns, with what it stores. *)
Lemma authorizeDevice_settled L p w dev r p' w' seen :
  authorizeDevice L p w (Some dev) = Done (r, p', w', seen) ->
  if servedFromCache p w dev
  then reason r = "Already authorized" /\ authorized r = true
       /\ isAuthorized (stateOf p dev) = true
       /\ p' = store p dev (stateOf p dev)
  else exists t w1,
      (reads w <= reads w1)%nat /\ clock w1 = clock w
      /\ t = clock w (reads w1) /\ (reads w1 < reads w')%nat
      /\ settled p (now w1).2 dev
           {| isAuthorized := false; lastAuthAttempt := t;
              history := history (stateOf p dev);
              maxHistorySize := maxHistorySize (stateOf p dev) |}
           r p' w'.
Proof.
  unfold authorizeDevice, servedFromCache.
  pose proof (stillAuthorized_clock w (stateOf p dev)) as Hclk.
  pose proof (stillAuthorized_value w (stateOf p dev)) as Hval.
  destruct (stillAuthorized w (stateOf p dev)) as [[|] w1]; cbn [fst snd] in *.
  - unfold createResult, now. intros [= <- <- <- <-]. cbn.
    symmetry in Hval. apply andb_true_iff in Hval. by destruct Hval.
  - destruct Hclk as (Hc & Hr & _).
    destruct (now w1) as [t w2] eqn:Hnow.
    assert (t = clock w (reads w1) /\ w2 = (now w1).2) as [Ht ->].
    { unfold now in Hnow |- *. injection Hnow as <- <-. by rewrite Hc. }
    intros H. exists t, w1. split; [lia|]. split; [done|]. split; [done|].
    assert (settled p (now w1).2 dev
              {| isAuthorized := false; lastAuthAttempt := t;
                 history := history (stateOf p dev);
                 maxHistorySize := maxHistorySize (stateOf p dev) |}
              r p' w') as Hset.
    { destruct (autoAuthorizeKnownDevices (policy p) && isKnownDevice dev).
      - revert H. unfold createResult, now. intros [= <- <- <- <-].
        eexists. cbn. repeat split; try done; try lia. intros _; in_list.
      - by apply systemStage_settled in H. }
    split; [|done].
    destruct Hset as (? & _ & _ & _ & Hrd & _). cbn in Hrd. lia.
Qed.

(** X1.  Whenever [authorizeDevice] returns for a device, the
    authorization flag it leaves stored for the device is the verdict it
    returns, so [isAuthorized] answers true exactly while the verdict
    was an approval and fewer than 24 whole hours lie between the stored
    time of the attempt and the reading of the clock; a call that runs
    the checks stores a clock reading of its own as that time, a call
    answered from the cache keeps the stored one. *)
Theorem authorizeDevice_verdict_stored (L : LibusbConstants) (p : Private)
        (w : World) (dev : UsbDevice) r p' w' seen :
  authorizeDevice L p w (Some dev) = Done (r, p', w', seen) ->
  isAuthorized (stateOf p' dev) = authorized r
  /\ (forall w2,
        (isAuthorized_ p' w2 (Some dev)).1
        = authorized r
          && (Z.quot (clock w2 (reads w2) - lastAuthAttempt (stateOf p' dev))
                     system_clock_ticks_per_hour <? 24))
  /\ if servedFromCache p w dev
     then lastAuthAttempt (stateOf p' dev) = lastAuthAttempt (stateOf p dev)
     else exists k, (reads w <= k < reads w')%nat
                    /\ lastAuthAttempt (stateOf p' dev) = clock w k.
Proof.
  intros H. apply authorizeDevice_settled in H.
  assert (isAuthorized (stateOf p' dev) = authorized r
          /\ deviceStates p' !! ptr dev = Some (stateOf p' dev)
          /\ if servedFromCache p w dev
             then lastAuthAttempt (stateOf p' dev)
                  = lastAuthAttempt (stateOf p dev)
             else exists k, (reads w <= k < reads w')%nat
                            /\ lastAuthAttempt (stateOf p' dev) = clock w k)
    as (Hflag & Hlook & Htime).
  { destruct (servedFromCache p w dev).
    - destruct H as (_ & -> & Hs & ->). rewrite stateOf_store.
      split; [done|]. split; [|done]. unfold store. cbn.
      by rewrite lookup_insert_eq.
    - destruct H as (t & w1 & Hr1 & Hc1 & -> & Hr2 & s' & -> & Hf & Ht & _).
      rewrite stateOf_store. split; [done|]. split.
      + unfold store. cbn. by rewrite lookup_insert_eq.
      + exists (reads w1). split; [lia|]. by rewrite Ht. }
  split; [done|]. split; [|done].
  intros w2. unfold isAuthorized_. rewrite Hlook.
  by rewrite stillAuthorized_value, Hflag.
Qed.

Lemma authorizeDevice_verdict_stored_witness :
  DeviceAuthorizer.isAuthorized
    (DeviceAuthorizer.stateOf afterFirstCall.1 keyboard) = true
  /\ (DeviceAuthorizer.isAuthorized_ afterFirstCall.1 afterFirstCall.2
        (Some keyboard)).1 = true.
Proof.
  destruct (authorizeDevice libusb_1_0 create world0 (Some keyboard))
    as [[[[r p'] w'] seen]|] eqn:E; [|discriminate].
  pose proof (authorizeDevice_verdict_stored libusb_1_0 create world0 keyboard
                r p' w' seen E) as (Hflag & Hwin & _).
  assert (afterFirstCall = (p', w')) as ->.
  { unfold afterFirstCall. by rewrite E. }
  assert (authorized r = true) as Hr.
  { vm_compute in E. by injection E as <- _ _ _. }
  cbn [fst snd]. rewrite Hflag, Hwin, Hr. split; [done|].
  vm_compute in E. injection E as _ <- <- _. done.
Defined.

(** X2.  Every approval [authorizeDevice] returns is one of the
    authorizer's own: its reason is "Already authorized", "Known device
    type", "User authorized device" or "All checks passed".  A custom
    authorization method can only veto: when it approves, its result is
    dropped and the later steps decide. *)
Theorem authorizeDevice_approval_reasons (L : LibusbConstants) (p : Private)
        (w : World) (dev : UsbDevice) r p' w' seen :
  authorizeDevice L p w (Some dev) = Done (r, p', w', seen) ->
  authorized r = true ->
  reason r ∈ ["Already authorized"; "Known device type";
              "User authorized device"; "All checks passed"].
Proof.
  intros H Hr. apply authorizeDevice_settled in H.
  destruct (servedFromCache p w dev).
  - destruct H as (-> & _). in_list.
  - destruct H as (t & w1 & _ & _ & _ & _ & s' & _ & _ & _ & _ & _ & Hwhy).
    right. exact (Hwhy Hr).
Qed.

Lemma authorizeDevice_approval_reasons_witness :
  exists r p' w' seen,
    authorizeDevice libusb_1_0 create world0 (Some keyboard)
    = Done (r, p', w', seen)
    /\ reason r ∈ ["Already authorized"; "Known device type";
                   "User authorized device"; "All checks passed"].
Proof.
  destruct (authorizeDevice libusb_1_0 create world0 (Some keyboard))
    as [[[[r p'] w'] seen]|] eqn:E; [|discriminate].
  exists r, p', w', seen. split; [done|].
  apply (authorizeDevice_approval_reasons libusb_1_0 create world0 keyboard
           r p' w' seen E).
  vm_compute in E. by injection E as <- _ _ _.
Defined.

(** X3.  [authorizeDevice] fails to return exactly when it reaches the
    certificate check: the device is not answered from the cache, it is
    not approved as a known device type, the system policies (if
    enforced) let it pass, and [checkDeviceCertificates] is set.  The
    check then locks [stateMutex], which the call already holds. *)
Theorem authorizeDevice_relock_iff (L : LibusbConstants) (p : Private)
        (w : World) (dev : UsbDevice) :
  authorizeDevice L p w (Some dev) = Relock <->
  servedFromCache p w dev = false
  /\ autoAuthorizeKnownDevices (policy p) && isKnownDevice dev = false
  /\ (enforceSystemPolicies (policy p) = true ->
      checkSystemPolicies L dev = true)
  /\ checkDeviceCertificates (policy p) = true.
Proof.
  split.
  - intros H.
    destruct (checkDeviceCertificates (policy p)) eqn:Hcert.
    + unfold authorizeDevice, servedFromCache in *.
      destruct (stillAuthorized w (stateOf p dev)) as [[|] w1]; cbn [fst].
      { by destruct (createResult w1 true _ _). }
      destruct (now w1) as [t w2].
      destruct (autoAuthorizeKnownDevices (policy p) && isKnownDevice dev).
      { by destruct (createResult w2 true _ _). }
      repeat split. intros He. unfold systemStage in H. rewrite He in H.
      destruct (checkSystemPolicies L dev); [done|]. cbn in H.
      by destruct (now w2).
    + destruct (authorizeDevice_returns L p w (Some dev) Hcert) as [ret Hret].
      congruence.
  - intros (Hcache & Hauto & Hsys & Hcert).
    unfold authorizeDevice. unfold servedFromCache in Hcache.
    destruct (stillAuthorized w (stateOf p dev)) as [c w1]. cbn in Hcache.
    subst c. destruct (now w1) as [t w2]. rewrite Hauto.
    unfold systemStage, certificateStage. rewrite Hcert.
    destruct (enforceSystemPolicies (policy p)); [rewrite Hsys by done|]; done.
Qed.

(** X4.  [revokeAuthorization] withdraws the authorization for good:
    afterwards [isAuthorized] is false for the device at every reading of
    the clock, and no other device is touched.  If the device was flagged
    authorized, the signal is emitted once and a denial "Authorization
    revoked" is pushed on its bounded history; if it was not, nothing is
    emitted and the history is as before. *)
Theorem revokeAuthorization_revokes (p : Private) (w : World)
        (dev : UsbDevice) :
  let '(p', w', sig) := revokeAuthorization p w (Some dev) in
  (forall w2, (isAuthorized_ p' w2 (Some dev)).1 = false)
  /\ (forall other, ptr other <> ptr dev -> stateOf p' other = stateOf p other)
  /\ if isAuthorized (stateOf p dev)
     then sig = [deviceAuthorizationRevoked (ptr dev)]
          /\ exists r,
               getAuthorizationHistory p' dev
               = Deque.push_bounded (maxHistorySize (stateOf p dev))
                                    (history (stateOf p dev)) r
               /\ authorized r = false
               /\ reason r = "Authorization revoked"
               /\ method r = Automatic
               /\ timestamp r = clock w (S (reads w))
     else sig = [] /\ w' = w
          /\ getAuthorizationHistory p' dev = getAuthorizationHistory p dev.
Proof.
  unfold revokeAuthorization, createResult, now.
  destruct (isAuthorized (stateOf p dev)) eqn:Hs.
  - split; [|split].
    + intros w2. unfold isAuthorized_, store. cbn.
      rewrite lookup_insert_eq. by rewrite stillAuthorized_value.
    + intros other Hne. unfold stateOf, store. cbn.
      by rewrite lookup_insert_ne by congruence.
    + split; [done|]. eexists. rewrite history_store.
      split; [done|]. done.
  - split; [|split].
    + intros w2. unfold isAuthorized_, store. cbn.
      rewrite lookup_insert_eq. by rewrite stillAuthorized_value, Hs.
    + intros other Hne. unfold stateOf, store. cbn.
      by rewrite lookup_insert_ne by congruence.
    + split; [done|]. split; [done|]. rewrite history_store.
      unfold getAuthorizationHistory, stateOf.
      by destruct (deviceStates p !! ptr dev).
Qed.

(** X5.  Clearing the authorization history of a device empties what
    [getAuthorizationHistory] returns for it and nothing else: the
    device stays authorized (or not) as it was, and the histories of the
    other devices are kept. *)
Theorem clearAuthorizationHistory_keeps_authorization (p : Private)
        (dev : UsbDevice) :
  let p' := clearAuthorizationHistory p dev in
  getAuthorizationHistory p' dev = []
  /\ (forall w d, isAuthorized_ p' w d = isAuthorized_ p w d)
  /\ (forall other, ptr other <> ptr dev ->
        getAuthorizationHistory p' other = getAuthorizationHistory p other)
  /\ policy p' = policy p
  /\ trustedCertificates p' = trustedCertificates p.
Proof.
  unfold clearAuthorizationHistory.
  destruct (deviceStates p !! ptr dev) as [s|] eqn:E.
  - split; [by rewrite history_store|]. split; [|split]; [| |done].
    + intros w [d|]; [|done]. unfold isAuthorized_, store. cbn.
      destruct (decide (ptr d = ptr dev)) as [->|Hne].
      * by rewrite lookup_insert_eq, E.
      * by rewrite lookup_insert_ne by congruence.
    + intros other Hne. unfold getAuthorizationHistory, store. cbn.
      by rewrite lookup_insert_ne by congruence.
  - cbn. split; [|done]. unfold getAuthorizationHistory. by rewrite E.
Qed.

Lemma filter_app_last {A : Type} (f : A -> bool) (l : list A) (x : A) :
  f x = false -> List.filter f (l ++ [x]) = List.filter f l.
Proof.
  intros Hx. rewrite List.filter_app. cbn. rewrite Hx. apply app_nil_r.
Qed.

(** X6.  The list of trusted certificates: [addTrustedCertificate]
    appends the path when, and only when, the certificate validates;
    [removeTrustedCertificate] drops every occurrence of the given entry
    and keeps the others in their order, so removing what was just added
    gives the list that removing it before would have given. *)
Theorem trustedCertificates_add_remove (validateCertificate : string -> bool)
        (p : Private) (cert : string) :
  let added := addTrustedCertificate validateCertificate p cert in
  added.1 = validateCertificate cert
  /\ getTrustedCertificates added.2
     = getTrustedCertificates p
       ++ (if validateCertificate cert then [cert] else [])
  /\ (cert ∉ getTrustedCertificates (removeTrustedCertificate added.2 cert))
  /\ getTrustedCertificates (removeTrustedCertificate added.2 cert)
     = getTrustedCertificates (removeTrustedCertificate p cert)
  /\ forall other, other <> cert ->
       List.filter (String.eqb other)
         (getTrustedCertificates (removeTrustedCertificate p cert))
       = List.filter (String.eqb other) (getTrustedCertificates p).
Proof.
  unfold addTrustedCertificate, removeTrustedCertificate,
    getTrustedCertificates.
  assert (forall l, cert ∉ List.filter (fun c => negb (String.eqb c cert)) l)
    as Hnot.
  { intros l Hin. apply list_elem_of_In, List.filter_In in Hin.
    destruct Hin as [_ Hin]. by rewrite String.eqb_refl in Hin. }
  destruct (validateCertificate cert); cbn.
  - repeat split; try done.
    + rewrite filter_app_last; [done|]. by rewrite String.eqb_refl.
    + intros other Hne. induction (trustedCertificates p) as [|c l IH]; [done|].
      cbn. destruct (String.eqb_spec c cert) as [->|Hc]; cbn.
      * rewrite IH. by destruct (String.eqb_spec other cert).
      * by rewrite IH.
  - rewrite app_nil_r. repeat split; try done.
    intros other Hne. induction (trustedCertificates p) as [|c l IH]; [done|].
    cbn. destruct (String.eqb_spec c cert) as [->|Hc]; cbn.
    * rewrite IH. by destruct (String.eqb_spec other cert).
    * by rewrite IH.
Qed.

Lemma historiesBounded_stateOf p dev :
  historiesBounded p ->
  maxHistorySize (stateOf p dev) = 100%nat
  /\ (length (history (stateOf p dev)) <= 100)%nat.
Proof.
  intros Hb. unfold stateOf.
  destruct (deviceStates p !! ptr dev) as [s|] eqn:E; [by apply (Hb _ _ E)|].
  cbn. split; [done|lia].
Qed.

Lemma historiesBounded_store p dev s :
  historiesBounded p -> maxHistorySize s = 100%nat ->
  (length (history s) <= 100)%nat ->
  historiesBounded (store p dev s).
Proof.
  intros Hb Hm Hl k s0. unfold store. cbn. rewrite lookup_insert.
  case_decide.
  - by intros [= <-].
  - apply Hb.
Qed.

Lemma historiesBounded_call L v st c st' :
  historiesBounded st.1 ->
  authorizerCall L v st c = Done st' ->
  historiesBounded st'.1.
Proof.
  destruct st as [p w]. cbn [fst]. intros Hb.
  destruct c as [device|device|dev|pol|name f|path|id]; cbn [authorizerCall fst snd].
  - destruct (authorizeDevice L p w device) as [[[[r p'] w'] seen]|] eqn:E;
      [|discriminate].
    intros [= <-]. cbn. destruct device as [dev|].
    + apply authorizeDevice_cases in E.
      destruct (historiesBounded_stateOf p dev Hb) as [Hm Hl].
      destruct (servedFromCache p w dev).
      * destruct E as (_ & _ & ->). by apply historiesBounded_store.
      * destruct E as (s' & -> & Hmax & Hhist).
        apply historiesBounded_store; [done|congruence|].
        rewrite Hhist, Hm. apply push_bounded_length.
    + cbn in E. destruct (now w). by injection E as _ <- _ _.
  - intros [= <-]. destruct device as [dev|]; [|done].
    unfold revokeAuthorization.
    destruct (historiesBounded_stateOf p dev Hb) as [Hm Hl].
    destruct (isAuthorized (stateOf p dev)).
    + destruct (now w) as [t w1].
      destruct (createResult w1 false _ _) as [r w2]. cbn.
      apply historiesBounded_store; [done|done|].
      cbn. rewrite Hm. apply trim_bounded.
    + cbn. by apply historiesBounded_store.
  - intros [= <-]. cbn. unfold clearAuthorizationHistory.
    destruct (deviceStates p !! ptr dev) as [s|] eqn:E; [|done].
    apply historiesBounded_store; [done| |cbn; lia].
    by apply (Hb _ _ E).
  - by intros [= <-].
  - by intros [= <-].
  - intros [= <-]. cbn. unfold addTrustedCertificate. by destruct (v path).
  - by intros [= <-].
Qed.

(** X7.  Whatever public calls are made on an authorizer since its
    construction, and in whatever order, the authorization history of
    every device holds at most 100 results when the calls have
    returned. *)
Theorem authorizer_history_bounded (L : LibusbConstants)
        (validateCertificate : string -> bool) (w : World)
        (cs : list AuthorizerCall) p' w' :
  authorizerCalls L validateCertificate (create, w) cs = Done (p', w') ->
  forall dev, (length (getAuthorizationHistory p' dev) <= 100)%nat.
Proof.
  intros H.
  assert (historiesBounded p') as Hb.
  { assert (historiesBounded (create, w).1) as H0.
    { intros k s E. cbn in E. by rewrite lookup_empty in E. }
    revert H H0. generalize (create, w). induction cs as [|c cs IH];
      intros st H H0.
    - cbn in H. by injection H as ->.
    - cbn [authorizerCalls] in H.
      destruct (authorizerCall L validateCertificate st c) as [st1|] eqn:E;
        [|discriminate].
      apply (IH st1 H). by apply (historiesBounded_call _ _ _ _ _ H0 E). }
  intros dev. unfold getAuthorizationHistory.
  destruct (deviceStates p' !! ptr dev) as [s|] eqn:E; [|cbn; lia].
  by apply (Hb _ _ E).
Qed.

Lemma authorizer_history_bounded_witness :
  exists p' w',
    authorizerCalls libusb_1_0 (fun _ => true) (create, worldYes)
      [CallAuthorize (Some gadget); CallRevoke (Some gadget);
       CallAuthorize (Some keyboard); CallClearHistory keyboard]
    = Done (p', w')
    /\ (length (getAuthorizationHistory p' gadget) <= 100)%nat.
Proof.
  destruct (authorizerCalls libusb_1_0 (fun _ => true) (create, worldYes)
              [CallAuthorize (Some gadget); CallRevoke (Some gadget);
               CallAuthorize (Some keyboard); CallClearHistory keyboard])
    as [[p' w']|] eqn:E; [|vm_compute in E; discriminate].
  exists p', w'. split; [done|].
  apply (authorizer_history_bounded libusb_1_0 (fun _ => true) worldYes _ p' w' E).
Defined.

End AuthorizerCalls.


(** ** The security coordinator: what protocol validation accepts *)

Section ProtocolAcceptance.
Import SecurityManager.
Variable L : LibusbConstants.
Variable d : UsbDevice.

Lemma onlyLogs_refl p : onlyLogs p p.
Proof. by repeat split. Qed.

Lemma onlyLogs_trans p1 p2 p3 :
  onlyLogs p1 p2 -> onlyLogs p2 p3 -> onlyLogs p1 p3.
Proof.
  intros (A1 & A2 & A3 & A4 & A5 & A6) (B1 & B2 & B3 & B4 & B5 & B6).
  repeat split; try congruence.
  intros H. rewrite <- A5. apply B6. rewrite A5. by apply A6.
Qed.

Lemma logSecurityEvent_onlyLogs p w ev device text :
  onlyLogs p (logSecurityEvent p w ev device text).1.1.
Proof.
  destruct device as [dev|]; [|apply onlyLogs_refl].
  unfold logSecurityEvent. destruct (now w) as [t w1]. cbn.
  repeat split. intros _. apply push_bounded_length.
Qed.

Lemma violation_invalid text (a : Scan) : scanValid (violation d text a) = false.
Proof.
  destruct a as [[[valid p] w] sig]. unfold violation.
  by destruct (logSecurityEvent p w ProtocolViolation (Some d) text) as [[? ?] ?].
Qed.

Lemma violation_onlyLogs text (a : Scan) :
  onlyLogs a.1.1.2 (violation d text a).1.1.2.
Proof.
  destruct a as [[[valid p] w] sig]. unfold violation.
  pose proof (logSecurityEvent_onlyLogs p w ProtocolViolation (Some d) text) as H.
  by destruct (logSecurityEvent p w ProtocolViolation (Some d) text) as [[? ?] ?].
Qed.

(** The three loops: the flag they end with, and that they leave the
    variables alone when they end with the flag set. *)
Lemma scanEndpoints_accepts eps (a : Scan) :
  let a' := scanEndpoints L d eps a in
  scanValid a' = scanValid a && forallb (endpointOk L) eps
  /\ (scanValid a' = true -> a' = a)
  /\ onlyLogs a.1.1.2 a'.1.1.2.
Proof.
  revert a. induction eps as [|e rest IH]; intros a; cbn zeta.
  - cbn. rewrite andb_true_r. split; [done|]. split; [done|apply onlyLogs_refl].
  - cbn [scanEndpoints forallb]. destruct (scanValid a) eqn:Hv.
    2:{ cbn. rewrite Hv. split; [done|]. split; [done|apply onlyLogs_refl]. }
    unfold endpointOk at 1.
    destruct (isStandardTransferType L (transferType L e)); cbn [andb].
    + rewrite Z.leb_antisym. destruct (16384 <? wMaxPacketSize e); cbn [negb andb].
      * rewrite violation_invalid. split; [done|]. split; [done|].
        apply violation_onlyLogs.
      * destruct (IH a) as (H1 & H2 & H3). rewrite Hv in H1. done.
    + set (a1 := violation d "Invalid endpoint transfer type" a).
      assert (scanValid a1 = false) as Hv1 by apply violation_invalid.
      assert (onlyLogs a.1.1.2 a1.1.1.2) as Hl1 by apply violation_onlyLogs.
      destruct (16384 <? wMaxPacketSize e).
      * rewrite violation_invalid. split; [done|]. split; [done|].
        eapply onlyLogs_trans; [exact Hl1|apply violation_onlyLogs].
      * rewrite (scanEndpoints_invalid L d rest a1 Hv1). by rewrite Hv1.
Qed.

Lemma scanSettings_accepts settings (a : Scan) :
  let a' := scanSettings L d settings a in
  scanValid a' = scanValid a && forallb (settingOk L) settings
  /\ (scanValid a' = true -> a' = a)
  /\ onlyLogs a.1.1.2 a'.1.1.2.
Proof.
  revert a. induction settings as [|s rest IH]; intros a; cbn zeta.
  - cbn. rewrite andb_true_r. split; [done|]. split; [done|apply onlyLogs_refl].
  - cbn [scanSettings forallb]. destruct (scanValid a) eqn:Hv.
    2:{ cbn. rewrite Hv. split; [done|]. split; [done|apply onlyLogs_refl]. }
    set (a1 := if isCommonClass L (bInterfaceClass s) then a
               else if bInterfaceClass s <? LIBUSB_CLASS_VENDOR_SPEC L
                    then violation d "Unknown interface class detected" a
                    else a).
    assert (scanValid a1
            = (isCommonClass L (bInterfaceClass s)
               || (LIBUSB_CLASS_VENDOR_SPEC L <=? bInterfaceClass s))
            /\ (scanValid a1 = true -> a1 = a)
            /\ onlyLogs a.1.1.2 a1.1.1.2) as (Hv1 & He1 & Hl1).
    { subst a1. destruct (isCommonClass L (bInterfaceClass s)); cbn [orb].
      - split; [done|]. split; [done|apply onlyLogs_refl].
      - rewrite Z.leb_antisym.
        destruct (bInterfaceClass s <? LIBUSB_CLASS_VENDOR_SPEC L); cbn [negb].
        + rewrite violation_invalid. split; [done|]. split; [done|].
          apply violation_onlyLogs.
        + split; [done|]. split; [done|apply onlyLogs_refl]. }
    destruct (scanEndpoints_accepts (endpoint s) a1) as (Hv2 & He2 & Hl2).
    destruct (IH (scanEndpoints L d (endpoint s) a1)) as (Hv3 & He3 & Hl3).
    cbn zeta in *. split; [|split].
    + rewrite Hv3, Hv2, Hv1. unfold settingOk at 2. by rewrite andb_assoc.
    + intros Hok. rewrite Hok in Hv3. symmetry in Hv3.
      apply andb_true_iff in Hv3 as [Hok2 _].
      rewrite (He3 Hok), (He2 Hok2). apply He1.
      rewrite Hok2 in Hv2. symmetry in Hv2. by apply andb_true_iff in Hv2 as [? _].
    + eapply onlyLogs_trans; [exact Hl1|].
      eapply onlyLogs_trans; [exact Hl2|exact Hl3].
Qed.

Lemma scanInterfaces_accepts ifaces (a : Scan) :
  let a' := scanInterfaces L d ifaces a in
  scanValid a' = scanValid a && forallb (interfaceOk L) ifaces
  /\ (scanValid a' = true -> a' = a)
  /\ onlyLogs a.1.1.2 a'.1.1.2.
Proof.
  revert a. induction ifaces as [|i rest IH]; intros a; cbn zeta.
  - cbn. rewrite andb_true_r. split; [done|]. split; [done|apply onlyLogs_refl].
  - cbn [scanInterfaces forallb]. destruct (scanValid a) eqn:Hv.
    2:{ cbn. rewrite Hv. split; [done|]. split; [done|apply onlyLogs_refl]. }
    unfold interfaceOk at 1. rewrite Z.leb_antisym.
    destruct (16 <? num_altsetting i); cbn [negb andb].
    + rewrite violation_invalid. split; [done|]. split; [done|].
      apply violation_onlyLogs.
    + destruct (scanSettings_accepts (altsetting i) a) as (Hv2 & He2 & Hl2).
      destruct (IH (scanSettings L d (altsetting i) a)) as (Hv3 & He3 & Hl3).
      cbn zeta in *. split; [|split].
      * by rewrite Hv3, Hv2, Hv.
      * intros Hok. rewrite Hok in Hv3. symmetry in Hv3.
        apply andb_true_iff in Hv3 as [Hok2 _].
        by rewrite (He3 Hok), (He2 Hok2).
      * eapply onlyLogs_trans; [exact Hl2|exact Hl3].
Qed.

Lemma scanInterfaces_scanning cap ifaces (a : Scan) :
  scanning cap a -> scanning cap (scanInterfaces L d ifaces a).
Proof.
  revert a. induction ifaces as [|i rest IH]; intros a Ha; [done|].
  cbn [scanInterfaces]. destruct (scanValid a); [|done].
  destruct (16 <? num_altsetting i); [by apply violation_scanning|].
  by apply IH, scanSettings_scanning.
Qed.

Lemma validateDeviceProtocol_onlyLogs p w :
  onlyLogs p (validateDeviceProtocol L p w (Some d)).1.1.2.
Proof.
  unfold validateDeviceProtocol.
  destruct (isOpen d); cbn [negb]; [|apply onlyLogs_refl].
  destruct (activeConfig d) as [config|]; [|apply onlyLogs_refl].
  set (a0 := (true, p, w, []) : Scan).
  set (a1 := if 32 <? bNumInterfaces config
             then violation d "Suspicious number of interfaces" a0 else a0).
  assert (onlyLogs p a1.1.1.2) as H1.
  { subst a1. destruct (32 <? _); [apply (violation_onlyLogs _ a0)|].
    apply onlyLogs_refl. }
  eapply onlyLogs_trans; [exact H1|].
  apply scanInterfaces_accepts.
Qed.

(** X8.  [validateDeviceProtocol] accepts a device exactly when it is
    open, its active configuration can be read, and the descriptor tree
    has at most 32 interfaces, at most 16 alternate settings on each,
    only interface classes that are common ones or at least
    LIBUSB_CLASS_VENDOR_SPEC, and only endpoints of a standard transfer
    type with a maximum packet size of at most 16384.  An accepted device
    leaves the manager and the clock untouched and no signal is emitted;
    a device that is closed or has no readable configuration is refused
    silently; any other refusal ends with a ProtocolViolation event. *)
Theorem validateDeviceProtocol_accepts (p : Private) (w : World) :
  let '(ok, p', w', sig) := validateDeviceProtocol L p w (Some d) in
  ok = wellFormed L d
  /\ (ok = true -> p' = p /\ w' = w /\ sig = [])
  /\ (isOpen d = false \/ activeConfig d = None ->
      ok = false /\ p' = p /\ w' = w /\ sig = [])
  /\ (ok = false -> isOpen d = true -> activeConfig d <> None ->
      exists info, last sig = Some (securityEventOccurred info)
                   /\ event info = ProtocolViolation).
Proof.
  unfold validateDeviceProtocol, wellFormed.
  destruct (isOpen d); cbn [negb andb].
  2:{ repeat split; try done. }
  destruct (activeConfig d) as [config|].
  2:{ repeat split; try done. }
  set (a0 := (true, p, w, []) : Scan).
  set (a1 := if 32 <? bNumInterfaces config
             then violation d "Suspicious number of interfaces" a0 else a0).
  assert (scanValid a1 = (bNumInterfaces config <=? 32)
          /\ (scanValid a1 = true -> a1 = a0)) as [Hv1 He1].
  { subst a1. rewrite Z.leb_antisym. destruct (32 <? _); cbn [negb].
    - by rewrite violation_invalid.
    - done. }
  assert (scanning (maxEventHistory (state p)) a1) as Hs1.
  { subst a1. destruct (32 <? _).
    - apply violation_scanning. split; [done|by left].
    - split; [done|by left]. }
  destruct (scanInterfaces_accepts (interface config) a1) as (Hv & He & _).
  pose proof (scanInterfaces_scanning _ (interface config) a1 Hs1) as Hs.
  cbn zeta in Hv, He.
  destruct (scanInterfaces L d (interface config) a1) as [[[ok p'] w'] sig].
  cbn [scanValid fst snd] in Hv, He.
  split; [by rewrite Hv, Hv1|]. split; [|split].
  - intros Hok. specialize (He Hok). rewrite Hok in Hv. symmetry in Hv.
    apply andb_true_iff in Hv as [Hv _]. specialize (He1 Hv).
    rewrite He1 in He. subst a0. by injection He as _ -> -> ->.
  - intros [?|?]; done.
  - intros Hok _ _. destruct Hs as [_ [Hvalid|Hflag]].
    + cbn in Hvalid. congruence.
    + destruct Hflag as (_ & info & Hlast & Hev & _). by exists info.
Qed.

End ProtocolAcceptance.


(** ** The security coordinator: cache, event log, levels and rules *)

Section ManagerCalls.
Import SecurityManager.

Lemma isDeviceAllowed_onlyLogs p w device :
  onlyLogs p (isDeviceAllowed p w device).1.1.2.
Proof.
  unfold isDeviceAllowed. destruct device as [d|]; [|apply onlyLogs_refl].
  destruct (authorizedDevices (state p) !! deviceKey d);
    [apply onlyLogs_refl|].
  destruct (negb (Rule.isWhitelisted _)).
  { pose proof (logSecurityEvent_onlyLogs p w UnauthorizedAccess (Some d)
                  "Device is not whitelisted") as H.
    by destruct (logSecurityEvent p w _ _ _) as [[? ?] ?]. }
  destruct (negb (validateDeviceInterfaces d _)).
  { pose proof (logSecurityEvent_onlyLogs p w PolicyViolation (Some d)
                  "Device uses unauthorized interfaces") as H.
    by destruct (logSecurityEvent p w _ _ _) as [[? ?] ?]. }
  destruct (ruleExpired w _) as [[|] w1]; [|apply onlyLogs_refl].
  pose proof (logSecurityEvent_onlyLogs p w1 PolicyViolation (Some d)
                "Security rule has expired") as H.
  by destruct (logSecurityEvent p w1 _ _ _) as [[? ?] ?].
Qed.

Lemma authorizer_policy_kept L a w device r a' w' seen :
  DeviceAuthorizer.authorizeDevice L a w device = Done (r, a', w', seen) ->
  DeviceAuthorizer.policy a' = DeviceAuthorizer.policy a.
Proof.
  destruct device as [dev|].
  - intros H. apply authorizeDevice_cases in H.
    destruct (servedFromCache a w dev).
    + by destruct H as (_ & _ & ->).
    + by destruct H as (s' & -> & _).
  - cbn. destruct (now w). by intros [= _ <- _ _].
Qed.

(** What [authorizeDevice] of the manager changes: the event log, the
    device states of the authorizer, and, when it grants, the cache entry
    of the device. *)
Lemma authorizeDevice_frame L p w d ok p' w' sig :
  authorizeDevice L p w (Some d) = Done (ok, p', w', sig) ->
  rules (state p') = rules (state p)
  /\ currentLevel (state p') = currentLevel (state p)
  /\ maxEventHistory (state p') = maxEventHistory (state p)
  /\ ((length (events (state p)) <= maxEventHistory (state p))%nat ->
      (length (events (state p')) <= maxEventHistory (state p))%nat)
  /\ authorizedDevices (state p')
     = (if ok then <[deviceKey d := true]> (authorizedDevices (state p))
        else authorizedDevices (state p))
  /\ DeviceAuthorizer.policy (authorizer p')
     = DeviceAuthorizer.policy (authorizer p).
Proof.
  unfold authorizeDevice.
  pose proof (isDeviceAllowed_onlyLogs p w (Some d)) as H1.
  destruct (isDeviceAllowed p w (Some d)) as [[[allowed p1] w1] sig1].
  cbn [fst snd] in H1. destruct H1 as (A1 & A2 & A3 & A4 & A5 & A6).
  destruct allowed; cbn [negb].
  2:{ intros [= <- <- <- <-]. by rewrite A1. }
  pose proof (validateDeviceProtocol_onlyLogs L d p1 w1) as H2.
  destruct (validateDeviceProtocol L p1 w1 (Some d)) as [[[valid p2] w2] sig2].
  cbn [fst snd] in H2. destruct H2 as (B1 & B2 & B3 & B4 & B5 & B6).
  assert ((length (events (state p)) <= maxEventHistory (state p))%nat ->
          (length (events (state p2)) <= maxEventHistory (state p))%nat) as Hlen.
  { intros H. rewrite <- A5. apply B6. rewrite A5. by apply A6. }
  destruct valid; cbn [negb].
  2:{ intros [= <- <- <- <-]. repeat split; first [exact Hlen|congruence]. }
  destruct (DeviceAuthorizer.authorizeDevice L (authorizer p2) w2 (Some d))
    as [[[[r a3] w3] seen]|] eqn:E; [|discriminate].
  apply authorizer_policy_kept in E.
  destruct (DeviceAuthorizer.authorized r) eqn:Hr; cbn [negb];
    intros [= <- <- <- <-]; cbn; repeat split; first [exact Hlen|congruence].
Qed.

Lemma revokeAuthorization_frame p w d :
  let '(p', w', sig) := revokeAuthorization p w (Some d) in
  rules (state p') = rules (state p)
  /\ currentLevel (state p') = currentLevel (state p)
  /\ maxEventHistory (state p') = maxEventHistory (state p)
  /\ ((length (events (state p)) <= maxEventHistory (state p))%nat ->
      (length (events (state p')) <= maxEventHistory (state p))%nat)
  /\ authorizedDevices (state p')
     = delete (deviceKey d) (authorizedDevices (state p))
  /\ authorizer p'
     = (DeviceAuthorizer.revokeAuthorization (authorizer p) w (Some d)).1.1.
Proof.
  unfold revokeAuthorization.
  destruct (DeviceAuthorizer.revokeAuthorization (authorizer p) w (Some d))
    as [[a1 w1] revoked].
  destruct revoked as [|x revoked]; [done|].
  pose proof (logSecurityEvent_onlyLogs
                {| authorizer := a1; state := state p |} w1
                AuthorizationDenied (Some d) "Device authorization revoked")
    as H.
  destruct (logSecurityEvent _ w1 _ _ _) as [[p2 w2] sig].
  cbn [fst snd] in *. destruct H as (A1 & A2 & A3 & A4 & A5 & A6).
  cbn in *. repeat split; congruence || done.
Qed.

Lemma managerCall_invariant L st c st' :
  managerInvariant st.1 ->
  managerCall L st c = Done st' ->
  managerInvariant st'.1.
Proof.
  destruct st as [p w]. cbn [fst]. intros (Hcap & Hlen & Hgrants).
  destruct c as [device|device|device|rule|vid pid| |level| ];
    cbn [managerCall fst snd].
  - pose proof (isDeviceAllowed_onlyLogs p w device) as H.
    destruct (isDeviceAllowed p w device) as [[[? p1] w1] ?].
    cbn [fst snd] in H. destruct H as (A1 & A2 & A3 & A4 & A5 & A6).
    intros [= <-]. cbn [fst]. split; [congruence|]. split.
    + rewrite <- Hcap. apply A6. by rewrite Hcap.
    + by rewrite A3.
  - destruct (authorizeDevice L p w device) as [[[[ok p'] w'] sig]|] eqn:E;
      [|discriminate].
    intros [= <-]. cbn [fst]. destruct device as [d|].
    + apply authorizeDevice_frame in E.
      destruct E as (_ & _ & A5 & A6 & A3 & _).
      split; [congruence|]. split.
      * rewrite <- Hcap. apply A6. by rewrite Hcap.
      * intros k b. rewrite A3. destruct ok; [|apply Hgrants].
        rewrite lookup_insert. case_decide; [by intros [= <-]|apply Hgrants].
    + cbn in E. by injection E as _ <- _ _.
  - intros [= <-]. destruct device as [d|]; [|done].
    pose proof (revokeAuthorization_frame p w d) as H.
    destruct (revokeAuthorization p w (Some d)) as [[p' w'] sig].
    cbn [fst]. destruct H as (_ & _ & A5 & A6 & A3 & _).
    split; [congruence|]. split.
    + rewrite <- Hcap. apply A6. by rewrite Hcap.
    + intros k b. rewrite A3. rewrite lookup_delete.
      case_decide; [done|apply Hgrants].
  - by intros [= <-].
  - intros [= <-]. unfold removeSecurityRule. by destruct (existsb _ _).
  - by intros [= <-].
  - intros [= <-]. unfold setSecurityLevel.
    destruct (SecurityLevel_eqb _ _); [done|]. by destruct level.
  - intros [= <-]. cbn. split; [done|]. split; [apply Nat.le_0_l|done].
Qed.

Lemma managerCalls_invariant L cs st st' :
  managerInvariant st.1 ->
  managerCalls L st cs = Done st' ->
  managerInvariant st'.1.
Proof.
  revert st. induction cs as [|c cs IH]; intros st H0 H.
  - cbn in H. by injection H as <-.
  - cbn [managerCalls] in H.
    destruct (managerCall L st c) as [st1|] eqn:E; [|discriminate].
    apply (IH st1); [|done]. by apply (managerCall_invariant _ _ _ _ H0 E).
Qed.

Lemma managerInvariant_create : managerInvariant create.
Proof.
  split; [done|]. split; [apply Nat.le_0_l|]. intros k b H. cbn in H.
  by rewrite lookup_empty in H.
Qed.

Lemma filter_sublist {A : Type} (f : A -> bool) (l : list A) :
  sublist (List.filter f l) l.
Proof.
  induction l as [|x l IH]; [done|]. cbn.
  destruct (f x); [by apply sublist_skip|by apply sublist_cons].
Qed.

(** X9.  Whatever public calls are made on a security manager since its
    construction, and in whatever order, its event log never holds more
    than 10000 events, and [getSecurityEvents] returns, oldest first,
    the logged events whose time stamp lies in the closed interval
    asked for. *)
Theorem security_events_bounded (L : LibusbConstants) (w : World)
        (cs : list ManagerCall) p' w' :
  managerCalls L (create, w) cs = Done (p', w') ->
  (length (events (state p')) <= 10000)%nat
  /\ forall start finish,
       (length (getSecurityEvents p' start finish) <= 10000)%nat
       /\ sublist (getSecurityEvents p' start finish) (events (state p'))
       /\ forall e, e ∈ getSecurityEvents p' start finish <->
                    e ∈ events (state p') /\ start <= timestamp e <= finish.
Proof.
  intros H.
  pose proof (managerCalls_invariant L cs (create, w) (p', w')
                managerInvariant_create H) as (_ & Hlen & _).
  cbn [fst] in Hlen. split; [done|]. intros start finish.
  unfold getSecurityEvents. split; [|split].
  - etrans; [apply List.filter_length_le|done].
  - apply filter_sublist.
  - intros e. rewrite !list_elem_of_In, List.filter_In, andb_true_iff.
    rewrite Z.leb_le, Z.leb_le. tauto.
Qed.

Lemma security_events_bounded_witness :
  exists p' w',
    managerCalls libusb_1_0 (create, world0)
      [IsDeviceAllowed (Some gadget);
       AddSecurityRule (rule_1234_5678 true []);
       IsDeviceAllowed (Some gadget); ClearSecurityRules;
       AuthorizeDevice (Some gadget)]
    = Done (p', w')
    /\ (length (events (state p')) <= 10000)%nat.
Proof.
  destruct (managerCalls libusb_1_0 (create, world0)
              [IsDeviceAllowed (Some gadget);
               AddSecurityRule (rule_1234_5678 true []);
               IsDeviceAllowed (Some gadget); ClearSecurityRules;
               AuthorizeDevice (Some gadget)])
    as [[p' w']|] eqn:E; [|vm_compute in E; discriminate].
  exists p', w'. split; [done|].
  apply (security_events_bounded libusb_1_0 world0 _ p' w' E).
Defined.

(** X10.  The cache of authorized devices never holds a refusal:
    whatever public calls were made on a security manager since its
    construction, a device whose vendor:product key is in the cache is
    allowed by [isDeviceAllowed] at once, without a rule being consulted
    or an event logged. *)
Theorem authorized_cache_only_grants (L : LibusbConstants) (w : World)
        (cs : list ManagerCall) p' w' :
  managerCalls L (create, w) cs = Done (p', w') ->
  forall d w2,
    is_Some (authorizedDevices (state p') !! deviceKey d) ->
    isDeviceAllowed p' w2 (Some d) = (true, p', w2, []).
Proof.
  intros H d w2 [b Hb].
  pose proof (managerCalls_invariant L cs (create, w) (p', w')
                managerInvariant_create H) as (_ & _ & Hgrants).
  cbn [fst] in Hgrants. unfold isDeviceAllowed. rewrite Hb.
  by rewrite (Hgrants _ _ Hb).
Qed.

Lemma authorized_cache_only_grants_witness :
  exists p' w',
    managerCalls libusb_1_0 (lowManager, world0)
      [AuthorizeDevice (Some (deviceWithInterface 3 bulkIn))]
    = Done (p', w')
    /\ isDeviceAllowed p' world0 (Some (deviceWithInterface 3 bulkIn))
       = (true, p', world0, []).
Proof.
  pose proof (authorized_cache_only_grants libusb_1_0 world0
                [AddSecurityRule (rule_1234_5678 true []);
                 SetSecurityLevel Low;
                 AuthorizeDevice (Some (deviceWithInterface 3 bulkIn))]) as H.
  destruct (managerCalls libusb_1_0 (lowManager, world0)
              [AuthorizeDevice (Some (deviceWithInterface 3 bulkIn))])
    as [[p' w']|] eqn:E; [|vm_compute in E; discriminate].
  exists p', w'. split; [done|].
  apply (H p' w' E). vm_compute in E. injection E as <- _. by eexists.
Defined.

Lemma cached_grant_kept L st c st' key :
  authorizedDevices (state st.1) !! key = Some true ->
  revokes key c = false ->
  managerCall L st c = Done st' ->
  authorizedDevices (state st'.1) !! key = Some true.
Proof.
  destruct st as [p w]. cbn [fst]. intros Hkey Hrev.
  destruct c as [device|device|device|rule|vid pid| |level| ];
    cbn [managerCall fst snd].
  - pose proof (isDeviceAllowed_onlyLogs p w device) as H.
    destruct (isDeviceAllowed p w device) as [[[? p1] w1] ?].
    cbn [fst snd] in H. destruct H as (_ & _ & A3 & _).
    intros [= <-]. cbn [fst]. by rewrite A3.
  - destruct (authorizeDevice L p w device) as [[[[ok p'] w'] sig]|] eqn:E;
      [|discriminate].
    intros [= <-]. cbn [fst]. destruct device as [d|].
    + apply authorizeDevice_frame in E. destruct E as (_ & _ & _ & _ & A3 & _).
      rewrite A3. destruct ok; [|done]. rewrite lookup_insert.
      by case_decide.
    + cbn in E. by injection E as _ <- _ _.
  - intros [= <-]. destruct device as [d|]; [|done].
    pose proof (revokeAuthorization_frame p w d) as H.
    destruct (revokeAuthorization p w (Some d)) as [[p' w'] sig].
    cbn [fst]. destruct H as (_ & _ & _ & _ & A3 & _).
    rewrite A3, lookup_delete_ne; [done|].
    cbn in Hrev. intros Heq. rewrite Heq, String.eqb_refl in Hrev. done.
  - by intros [= <-].
  - intros [= <-]. unfold removeSecurityRule. by destruct (existsb _ _).
  - by intros [= <-].
  - intros [= <-]. unfold setSecurityLevel.
    destruct (SecurityLevel_eqb _ _); [done|]. by destruct level.
  - by intros [= <-].
Qed.

(** X11.  A granted authorization outlives the rules: once
    [authorizeDevice] of the manager has returned true for a device,
    [isDeviceAllowed] allows every device with the same vendor and
    product identifiers, without consulting a rule, after any sequence of
    public calls that does not revoke that pair -- rules may be removed,
    cleared or replaced by a blacklisting rule, and the level changed. *)
Theorem authorization_outlives_rules (L : LibusbConstants) (p : Private)
        (w : World) (d : UsbDevice) p' w' sig
        (cs : list ManagerCall) p2 w2 :
  authorizeDevice L p w (Some d) = Done (true, p', w', sig) ->
  forallb (fun c => negb (revokes (deviceKey d) c)) cs = true ->
  managerCalls L (p', w') cs = Done (p2, w2) ->
  forall d2 w3,
    vendorId (identifier d2) = vendorId (identifier d) ->
    productId (identifier d2) = productId (identifier d) ->
    isDeviceAllowed p2 w3 (Some d2) = (true, p2, w3, []).
Proof.
  intros Hgrant Hcs Hrun d2 w3 Hvid Hpid.
  assert (authorizedDevices (state p') !! deviceKey d = Some true) as Hkey.
  { apply authorizeDevice_frame in Hgrant.
    destruct Hgrant as (_ & _ & _ & _ & -> & _). by rewrite lookup_insert_eq. }
  assert (authorizedDevices (state p2) !! deviceKey d = Some true) as Hkey2.
  { change p' with (p', w').1 in Hkey. change p2 with (p2, w2).1.
    revert Hkey Hrun. generalize (p', w'). generalize (p2, w2).
    induction cs as [|c cs IH]; intros st2 st1 Hkey Hrun.
    - cbn in Hrun. by injection Hrun as <-.
    - cbn [managerCalls] in Hrun. cbn [forallb] in Hcs.
      apply andb_true_iff in Hcs as [Hc Hcs].
      destruct (managerCall L st1 c) as [st|] eqn:E; [|discriminate].
      apply (IH Hcs st2 st); [|done].
      apply (cached_grant_kept L st1 c st _ Hkey); [|done].
      by destruct (revokes (deviceKey d) c). }
  assert (deviceKey d2 = deviceKey d) as Hsame.
  { unfold deviceKey. by rewrite Hvid, Hpid. }
  unfold isDeviceAllowed. by rewrite Hsame, Hkey2.
Qed.

Lemma authorization_outlives_rules_witness :
  exists p' w' sig p2 w2,
    authorizeDevice libusb_1_0 lowManager world0
                    (Some (deviceWithInterface 3 bulkIn))
    = Done (true, p', w', sig)
    /\ managerCalls libusb_1_0 (p', w')
         [ClearSecurityRules; AddSecurityRule (rule_1234_5678 false [])]
       = Done (p2, w2)
    /\ isDeviceAllowed p2 world0 (Some (deviceWithInterface 3 bulkIn))
       = (true, p2, world0, []).
Proof.
  destruct (authorizeDevice libusb_1_0 lowManager world0
              (Some (deviceWithInterface 3 bulkIn)))
    as [[[[ok p'] w'] sig]|] eqn:E; [|vm_compute in E; discriminate].
  assert (ok = true) as ->.
  { vm_compute in E. by injection E as <- _ _ _. }
  destruct (managerCalls libusb_1_0 (p', w')
              [ClearSecurityRules; AddSecurityRule (rule_1234_5678 false [])])
    as [[p2 w2]|] eqn:E2; [|discriminate].
  exists p', w', sig, p2, w2. split; [done|]. split; [done|].
  by apply (authorization_outlives_rules libusb_1_0 lowManager world0
              (deviceWithInterface 3 bulkIn) p' w' sig
              [ClearSecurityRules; AddSecurityRule (rule_1234_5678 false [])]
              p2 w2 E eq_refl E2).
Defined.

Lemma revoked_unauthorized a w dev w2 :
  (DeviceAuthorizer.isAuthorized_
     (DeviceAuthorizer.revokeAuthorization a w (Some dev)).1.1 w2 (Some dev)).1
  = false.
Proof.
  unfold DeviceAuthorizer.revokeAuthorization, DeviceAuthorizer.createResult, now.
  destruct (DeviceAuthorizer.isAuthorized (DeviceAuthorizer.stateOf a dev))
    eqn:Hs; unfold DeviceAuthorizer.isAuthorized_, DeviceAuthorizer.store; cbn;
    rewrite lookup_insert_eq, stillAuthorized_value; [done|by rewrite Hs].
Qed.

(** X12.  [revokeAuthorization] of the manager undoes an authorization
    in both layers: the vendor:product key leaves the cache, so that
    [isDeviceAllowed] decides by the rules again, and the authorizer no
    longer reports the device as authorized.  The rules and the other
    cache entries are kept.  An event AuthorizationDenied "Device
    authorization revoked" is logged exactly when the authorizer had the
    device flagged as authorized. *)
Theorem revokeAuthorization_forgets (p : Private) (w : World)
        (d : UsbDevice) :
  let '(p', w', sig) := revokeAuthorization p w (Some d) in
  authorizedDevices (state p') !! deviceKey d = None
  /\ (forall w2, (DeviceAuthorizer.isAuthorized_ (authorizer p') w2 (Some d)).1
                 = false)
  /\ rules (state p') = rules (state p)
  /\ (forall k, k <> deviceKey d ->
        authorizedDevices (state p') !! k = authorizedDevices (state p) !! k)
  /\ if DeviceAuthorizer.isAuthorized
          (DeviceAuthorizer.stateOf (authorizer p) d)
     then exists info,
         sig = [securityEventOccurred info]
         /\ event info = AuthorizationDenied
         /\ description info = "Device authorization revoked"
         /\ deviceId info = eventDeviceId d
     else sig = [] /\ events (state p') = events (state p).
Proof.
  unfold revokeAuthorization.
  pose proof (revoked_unauthorized (authorizer p) w d) as Hun.
  assert ((DeviceAuthorizer.revokeAuthorization (authorizer p) w (Some d)).2
          = if DeviceAuthorizer.isAuthorized
                 (DeviceAuthorizer.stateOf (authorizer p) d)
            then [DeviceAuthorizer.deviceAuthorizationRevoked (ptr d)]
            else []) as Hsig.
  { unfold DeviceAuthorizer.revokeAuthorization, DeviceAuthorizer.createResult,
      now.
    by destruct (DeviceAuthorizer.isAuthorized _). }
  destruct (DeviceAuthorizer.revokeAuthorization (authorizer p) w (Some d))
    as [[a1 w1] revoked].
  cbn [fst snd] in Hun, Hsig.
  destruct (DeviceAuthorizer.isAuthorized
              (DeviceAuthorizer.stateOf (authorizer p) d)); subst revoked.
  - destruct (logSecurityEvent_logged {| authorizer := a1; state := state p |}
                w1 AuthorizationDenied d "Device authorization revoked")
      as (t & w3 & Hlog).
    cbn zeta in Hlog. rewrite Hlog. cbn.
    split; [apply lookup_delete_eq|]. split; [exact Hun|]. split; [done|].
    split; [intros k Hk; by rewrite lookup_delete_ne|].
    eexists. by repeat split.
  - cbn.
    split; [apply lookup_delete_eq|]. split; [exact Hun|]. split; [done|].
    split; [intros k Hk; by rewrite lookup_delete_ne|]. done.
Qed.

Lemma last_nonempty_default {A : Type} (x : A) (l : list A) (d d' : A) :
  List.last (x :: l) d = List.last (x :: l) d'.
Proof. revert x. induction l as [|y l IH]; intros x; [done|]. apply (IH y). Qed.

Lemma setSecurityLevel_step p level l0 :
  presetPolicy l0 = Some (DeviceAuthorizer.policy (authorizer p)) ->
  currentLevel (state p) = l0 \/ currentLevel (state p) = Custom ->
  let p' := (setSecurityLevel p level).1 in
  presetPolicy (lastPreset l0 [level])
  = Some (DeviceAuthorizer.policy (authorizer p'))
  /\ currentLevel (state p') = level
  /\ (currentLevel (state p') = lastPreset l0 [level]
      \/ currentLevel (state p') = Custom).
Proof.
  intros Hpol Hlevel. unfold setSecurityLevel.
  destruct (SecurityLevel_eqb (currentLevel (state p)) level) eqn:Heq.
  - assert (currentLevel (state p) = level) as Hsame
        by (destruct (currentLevel (state p)), level; done).
    cbn [fst]. destruct level; cbn [lastPreset];
      repeat split; auto; destruct Hlevel as [<-|?]; congruence || auto.
  - destruct level; cbn; auto.
Qed.

(** X13.  The security level and the policy of the authorizer stay in
    step: after any sequence of [setSecurityLevel] calls on a new
    manager, [getSecurityLevel] is the level of the last call, and the
    policy of the authorizer is the preset of the last level asked for
    that is not Custom (the preset of Medium if there is none); Custom
    never changes the policy. *)
Theorem security_level_policy_in_step (levels : list SecurityLevel) :
  let p := setLevels create levels in
  getSecurityLevel p = List.last levels Medium
  /\ presetPolicy (lastPreset Medium levels)
     = Some (DeviceAuthorizer.getAuthorizationPolicy (authorizer p)).
Proof.
  assert (forall p l0,
            presetPolicy l0 = Some (DeviceAuthorizer.policy (authorizer p)) ->
            currentLevel (state p) = l0 \/ currentLevel (state p) = Custom ->
            currentLevel (state (setLevels p levels))
            = List.last levels (currentLevel (state p))
            /\ presetPolicy (lastPreset l0 levels)
               = Some (DeviceAuthorizer.policy
                         (authorizer (setLevels p levels)))) as H.
  { induction levels as [|l rest IH]; intros p l0 Hpol Hlevel; [done|].
    destruct (setSecurityLevel_step p l l0 Hpol Hlevel) as (H1 & H2 & H3).
    cbn zeta in *. unfold setLevels. cbn [fold_left].
    destruct (IH _ _ H1 H3) as [H4 H5]. unfold setLevels in H4, H5.
    split.
    - rewrite H4, H2. clear. destruct rest as [|l' rest]; [done|].
      change (List.last (l' :: rest) l
              = List.last (l' :: rest) (currentLevel (state p))).
      apply last_nonempty_default.
    - rewrite <- H5. by destruct l. }
  apply (H create Medium); [reflexivity|by left].
Qed.

Lemma find_filter_implied {A : Type} (f g : A -> bool) (l : list A) :
  (forall x, f x = true -> g x = true) ->
  List.find f (List.filter g l) = List.find f l.
Proof.
  intros Himp. induction l as [|x l IH]; [done|]. cbn.
  destruct (f x) eqn:Hf.
  - rewrite (Himp x Hf). cbn. by rewrite Hf.
  - destruct (g x); cbn; [by rewrite Hf|done].
Qed.

Lemma find_filter_excluded {A : Type} (f g : A -> bool) (l : list A) :
  (forall x, f x = true -> g x = false) ->
  List.find f (List.filter g l) = None.
Proof.
  intros Hex. induction l as [|x l IH]; [done|]. cbn.
  destruct (g x) eqn:Hg; [|done]. cbn.
  destruct (f x) eqn:Hf; [|done]. rewrite (Hex x Hf) in Hg. done.
Qed.

Lemma find_app_none {A : Type} (f : A -> bool) (l1 l2 : list A) :
  List.find f l1 = None -> List.find f (l1 ++ l2) = List.find f l2.
Proof.
  induction l1 as [|x l IH]; [done|]. cbn. destruct (f x); [done|apply IH].
Qed.

Lemma find_app_last_false {A : Type} (f : A -> bool) (l : list A) (x : A) :
  f x = false -> List.find f (l ++ [x]) = List.find f l.
Proof.
  intros Hx. induction l as [|y l IH]; cbn; [by rewrite Hx|].
  by destruct (f y).
Qed.

(** X14.  Which rule decides for a device after the rule set changes.
    After [addSecurityRule] the added rule is the one found for every
    device with its vendor and product identifiers, whatever older rules
    for the pair said, and the rule found for any other device is as
    before.  After [removeSecurityRule] or [clearSecurityRules] a device
    of the pair has no rule, falls back on the default rule, which does
    not whitelist, and, unless it has a cached authorization, is refused
    by [isDeviceAllowed]. *)
Theorem rule_lookup_after_change (p : Private) (w : World)
        (rule : SecurityRule) (d : UsbDevice) :
  findMatchingRule (addSecurityRule p rule).1 (Some d)
  = (if matchesRule rule (Some d) then rule else findMatchingRule p (Some d))
  /\ (forall vid pid,
        findMatchingRule (removeSecurityRule p vid pid).1 (Some d)
        = if (vendorId (identifier d) =? vid) && (productId (identifier d) =? pid)
          then Rule.default else findMatchingRule p (Some d))
  /\ findMatchingRule (clearSecurityRules p).1 (Some d) = Rule.default
  /\ (authorizedDevices (state p) !! deviceKey d = None ->
      (isDeviceAllowed
         (removeSecurityRule p (vendorId (identifier d))
                             (productId (identifier d))).1 w (Some d)).1.1.1
      = false
      /\ (isDeviceAllowed (clearSecurityRules p).1 w (Some d)).1.1.1 = false).
Proof.
  assert (forall vid pid,
            findMatchingRule (removeSecurityRule p vid pid).1 (Some d)
            = if (vendorId (identifier d) =? vid)
                 && (productId (identifier d) =? pid)
              then Rule.default else findMatchingRule p (Some d)) as Hrem.
  { intros vid pid. unfold removeSecurityRule, findMatchingRule.
    destruct (existsb _ (rules (state p))) eqn:Hex; cbn [fst].
    - cbn [state withState withRules rules].
      destruct ((vendorId (identifier d) =? vid)
                && (productId (identifier d) =? pid)) eqn:Hd.
      + rewrite find_filter_excluded; [done|].
        intros r Hr. cbn in Hr. apply andb_true_iff in Hr as [H1 H2].
        apply andb_true_iff in Hd as [H3 H4].
        apply Z.eqb_eq in H1, H2, H3, H4. rewrite H1, H2, H3, H4.
        by rewrite !Z.eqb_refl.
      + rewrite find_filter_implied; [done|].
        intros r Hr. cbn in Hr. apply andb_true_iff in Hr as [H1 H2].
        apply Z.eqb_eq in H1, H2. rewrite H1, H2, Hd. done.
    - destruct ((vendorId (identifier d) =? vid)
                && (productId (identifier d) =? pid)) eqn:Hd; [|done].
      destruct (List.find _ (rules (state p))) as [r|] eqn:Hfind; [|done].
      apply List.find_some in Hfind as [Hin Hr].
      assert (existsb (fun r => (Rule.vendorId r =? vid)
                                && (Rule.productId r =? pid))
                      (rules (state p)) = true) as Habs.
      { apply existsb_exists. exists r. split; [done|].
        cbn in Hr. apply andb_true_iff in Hr as [H1 H2].
        apply andb_true_iff in Hd as [H3 H4].
        apply Z.eqb_eq in H1, H2, H3, H4. rewrite H1, H2, H3, H4.
        by rewrite !Z.eqb_refl. }
      congruence. }
  split; [|split; [exact Hrem|split; [done|]]].
  - unfold addSecurityRule, findMatchingRule.
    cbn [fst state withState withRules rules].
    destruct (matchesRule rule (Some d)) eqn:Hm.
    + rewrite find_app_none; [cbn [List.find]; by rewrite Hm|].
      apply find_filter_excluded. intros r Hr. unfold sameDevice.
      cbn in Hr, Hm. apply andb_true_iff in Hr as [H1 H2].
      apply andb_true_iff in Hm as [H3 H4].
      apply Z.eqb_eq in H1, H2, H3, H4. rewrite H1, H2, H3, H4.
      by rewrite !Z.eqb_refl.
    + rewrite find_app_last_false by done.
      rewrite find_filter_implied; [done|].
      intros r Hr. unfold sameDevice. cbn in Hr, Hm.
      apply andb_true_iff in Hr as [H1 H2]. apply Z.eqb_eq in H1, H2.
      rewrite H1, H2. rewrite Z.eqb_sym, (Z.eqb_sym (productId _)).
      by rewrite Hm.
  - intros Hcache. split.
    + unfold isDeviceAllowed.
      assert (authorizedDevices
                (state (removeSecurityRule p (vendorId (identifier d))
                          (productId (identifier d))).1) !! deviceKey d = None)
        as ->.
      { unfold removeSecurityRule. by destruct (existsb _ _). }
      rewrite Hrem, !Z.eqb_refl. cbn [andb Rule.isWhitelisted Rule.default negb].
      by destruct (logSecurityEvent _ _ _ _ _) as [[? ?] ?].
    + unfold isDeviceAllowed. cbn. rewrite Hcache.
      by destruct (now w).
Qed.

(** X15.  Under the policy of the level High no device that the
    authorizer does not already hold as authorized is ever granted by
    [authorizeDevice] of the manager: the call refuses it (by the rules,
    the protocol validation or the system policies) or reaches the
    certificate check, which locks the mutex the authorizer holds, and
    does not return. *)
Theorem authorizeDevice_high_never_grants (L : LibusbConstants) (p : Private)
        (w : World) (d : UsbDevice) :
  DeviceAuthorizer.policy (authorizer p) = highPolicy ->
  DeviceAuthorizer.isAuthorized (DeviceAuthorizer.stateOf (authorizer p) d)
  = false ->
  ~ exists p' w' sig, authorizeDevice L p w (Some d) = Done (true, p', w', sig).
Proof.
  intros Hpol Hflag (p' & w' & sig & H). revert H. unfold authorizeDevice.
  pose proof (isDeviceAllowed_onlyLogs p w (Some d)) as H1.
  destruct (isDeviceAllowed p w (Some d)) as [[[allowed p1] w1] sig1].
  cbn [fst snd] in H1. destruct H1 as (A1 & _).
  destruct allowed; cbn [negb]; [|discriminate].
  pose proof (validateDeviceProtocol_onlyLogs L d p1 w1) as H2.
  destruct (validateDeviceProtocol L p1 w1 (Some d)) as [[[valid p2] w2] sig2].
  cbn [fst snd] in H2. destruct H2 as (B1 & _).
  destruct valid; cbn [negb]; [|discriminate].
  rewrite B1, A1.
  assert (servedFromCache (authorizer p) w2 d = false) as Hcache.
  { unfold servedFromCache. by rewrite stillAuthorized_value, Hflag. }
  destruct (DeviceAuthorizer.checkSystemPolicies L d) eqn:Hsys.
  - rewrite authorizeDevice_certificate_relock; try done; by rewrite Hpol.
  - unfold DeviceAuthorizer.authorizeDevice. unfold servedFromCache in Hcache.
    destruct (DeviceAuthorizer.stillAuthorized w2 _) as [c w3].
    cbn in Hcache. subst c. destruct (now w3) as [t w4].
    rewrite Hpol. cbn [DeviceAuthorizer.autoAuthorizeKnownDevices highPolicy andb].
    unfold DeviceAuthorizer.systemStage. rewrite Hpol, Hsys.
    cbn [DeviceAuthorizer.enforceSystemPolicies highPolicy negb].
    unfold DeviceAuthorizer.createResult. destruct (now w4). cbn. discriminate.
Qed.

Lemma authorizeDevice_high_never_grants_witness :
  authorizeDevice libusb_1_0 highManager world0
                  (Some (deviceWithInterface 3 bulkIn)) = Relock
  /\ ~ exists p' w' sig,
         authorizeDevice libusb_1_0 highManager world0
                         (Some (deviceWithInterface 3 bulkIn))
         = Done (true, p', w', sig).
Proof.
  split; [by vm_compute|].
  by apply (authorizeDevice_high_never_grants libusb_1_0 highManager world0
              (deviceWithInterface 3 bulkIn)).
Defined.

End ManagerCalls.
